(** * SCIM endpoint core: filter push-down and PATCH engines

    Shallow embedding of
    - [src/unnamed/part_003] ([apply-scim-filter.ts]): the push-down planner,
    - [prisma-filter-evaluator.ts]: the in-memory evaluator of Prisma where clauses,
    - [group-patch-engine.ts] and [user-patch-engine.ts]: the PATCH engines.

    JavaScript values are modelled by the JSON type [json]; objects are
    association lists in insertion order, numbers are integers, strings are
    ASCII strings (so [toLowerCase] is ASCII lower-casing). *)

From Stdlib Require Import String Ascii List Bool ZArith Lia.
Import ListNotations.
Open Scope string_scope.
Open Scope list_scope.
Set Warnings "-register-all".

(* ------------------------------------------------------------------ *)
(** ** JavaScript values *)

Inductive json : Type :=
| JUndef
| JNull
| JBool (b : bool)
| JNum (n : Z)
| JStr (s : string)
| JArr (xs : list json)
| JObj (fs : list (string * json)).

(** [String.prototype.toLowerCase] on ASCII strings. *)
Definition lower_ascii (c : ascii) : ascii :=
  let n := nat_of_ascii c in
  if (65 <=? n)%nat && (n <=? 90)%nat then ascii_of_nat (n + 32) else c.

Fixpoint toLowerCase (s : string) : string :=
  match s with
  | EmptyString => EmptyString
  | String c s' => String (lower_ascii c) (toLowerCase s')
  end.

(** [s.includes(t)], [s.startsWith(t)], [s.endsWith(t)]. *)
Fixpoint includes (s t : string) : bool :=
  String.prefix t s ||
  match s with
  | EmptyString => false
  | String _ s' => includes s' t
  end.

Definition startsWith (s t : string) : bool := String.prefix t s.

Definition endsWith (s t : string) : bool :=
  let n := String.length s in
  let m := String.length t in
  (m <=? n)%nat && String.eqb (substring (n - m) m s) t.

(** Decimal rendering of an integer, for [String(n)]. *)
Fixpoint digits_of (fuel : nat) (n : Z) (acc : string) : string :=
  match fuel with
  | O => acc
  | S f =>
      let acc' := String (ascii_of_nat (48 + Z.to_nat (n mod 10))) acc in
      if (n / 10 =? 0)%Z then acc' else digits_of f (n / 10) acc'
  end.

Definition string_of_Z (n : Z) : string :=
  if (n <? 0)%Z then String "-" (digits_of 64 (- n) EmptyString)
  else digits_of 64 n EmptyString.

(** [String(v)] for the values a filter literal can hold. *)
Definition js_String (v : json) : string :=
  match v with
  | JUndef => "undefined"
  | JNull => "null"
  | JBool true => "true"
  | JBool false => "false"
  | JNum n => string_of_Z n
  | JStr s => s
  | JArr _ => EmptyString
  | JObj _ => "[object Object]"
  end.

(** [a === b].  Objects and arrays compare by reference; two objects met
    here never share a reference (one comes from the record, the other
    from the filter), so [===] on them is false. *)
Definition strict_eq (a b : json) : bool :=
  match a, b with
  | JUndef, JUndef => true
  | JNull, JNull => true
  | JBool x, JBool y => Bool.eqb x y
  | JNum x, JNum y => Z.eqb x y
  | JStr x, JStr y => String.eqb x y
  | _, _ => false
  end.

(** [obj[k]] on a plain object: the value under key [k], [undefined] if absent. *)
Fixpoint obj_get (fs : list (string * json)) (k : string) : json :=
  match fs with
  | [] => JUndef
  | (k', v) :: rest => if String.eqb k' k then v else obj_get rest k
  end.

(** [k in obj]. *)
Definition obj_has (fs : list (string * json)) (k : string) : bool :=
  existsb (fun '(k', _) => String.eqb k' k) fs.

(** [obj[k] = v]: overwrite in place when the key exists, append otherwise. *)
Fixpoint obj_set {A} (fs : list (string * A)) (k : string) (v : A) : list (string * A) :=
  match fs with
  | [] => [(k, v)]
  | (k', v') :: rest =>
      if String.eqb k' k then (k', v) :: rest else (k', v') :: obj_set rest k v
  end.

(** [delete obj[k]]. *)
Definition obj_delete {A} (fs : list (string * A)) (k : string) : list (string * A) :=
  filter (fun '(k', _) => negb (String.eqb k' k)) fs.

(** [Object.entries(v)] of an array or a string: index keys. *)
Fixpoint index_entries {A} (i : nat) (xs : list A) : list (string * A) :=
  match xs with
  | [] => []
  | x :: rest => (string_of_Z (Z.of_nat i), x) :: index_entries (S i) rest
  end.

Fixpoint chars_of (s : string) : list json :=
  match s with
  | EmptyString => []
  | String c s' => JStr (String c EmptyString) :: chars_of s'
  end.

(* ------------------------------------------------------------------ *)
(** ** Filter AST ([scim-filter-parser.ts], shape only) *)

Inductive CompareOp : Type :=
| OpEq | OpNe | OpCo | OpSw | OpEw | OpGt | OpGe | OpLt | OpLe | OpPr.

Inductive LogicalOp : Type := LAnd | LOr.

(** [CompareNode.value] is [undefined] for [pr]. *)
Inductive FilterNode : Type :=
| Compare (attrPath : string) (op : CompareOp) (value : json)
| Logical (op : LogicalOp) (left right : FilterNode)
| Not (inner : FilterNode)
| ValuePath (attrPath : string) (filter : FilterNode).

(* ------------------------------------------------------------------ *)
(** ** Push-down planner ([apply-scim-filter.ts]) *)

Inductive ColumnType : Type := Citext | Varchar | Boolean | Uuid.

Record ColumnMapping : Type := { column : string; ctype : ColumnType }.

(** [Record<string, ColumnMapping>], keyed by the lowercase attribute name. *)
Definition ColumnMap : Type := list (string * ColumnMapping).

Fixpoint cm_lookup (cm : ColumnMap) (k : string) : option ColumnMapping :=
  match cm with
  | [] => None
  | (k', m) :: rest => if String.eqb k' k then Some m else cm_lookup rest k
  end.

Definition USER_DB_COLUMNS : ColumnMap :=
  [ ("username",    {| column := "userName";    ctype := Citext |});
    ("displayname", {| column := "displayName"; ctype := Citext |});
    ("externalid",  {| column := "externalId";  ctype := Varchar |});
    ("id",          {| column := "scimId";      ctype := Uuid |});
    ("active",      {| column := "active";      ctype := Boolean |}) ].

Definition GROUP_DB_COLUMNS : ColumnMap :=
  [ ("displayname", {| column := "displayName"; ctype := Citext |});
    ("externalid",  {| column := "externalId";  ctype := Varchar |});
    ("id",          {| column := "scimId";      ctype := Uuid |});
    ("active",      {| column := "active";      ctype := Boolean |}) ].

(** A Prisma where clause is a plain object. *)
Definition Where : Type := list (string * json).

Definition is_text (t : ColumnType) : bool :=
  match t with Citext | Varchar => true | _ => false end.

Definition buildColumnFilter (col : string) (t : ColumnType) (op : CompareOp)
    (value : json) : option Where :=
  match op with
  | OpEq => Some [(col, value)]
  | OpNe => Some [(col, JObj [("not", value)])]
  | OpCo => if is_text t
            then Some [(col, JObj [("contains", JStr (js_String value));
                                   ("mode", JStr "insensitive")])]
            else None
  | OpSw => if is_text t
            then Some [(col, JObj [("startsWith", JStr (js_String value));
                                   ("mode", JStr "insensitive")])]
            else None
  | OpEw => if is_text t
            then Some [(col, JObj [("endsWith", JStr (js_String value));
                                   ("mode", JStr "insensitive")])]
            else None
  | OpGt => Some [(col, JObj [("gt", value)])]
  | OpGe => Some [(col, JObj [("gte", value)])]
  | OpLt => Some [(col, JObj [("lt", value)])]
  | OpLe => Some [(col, JObj [("lte", value)])]
  | OpPr => Some [(col, JObj [("not", JNull)])]
  end.

Definition pushCompareToDb (attrPath : string) (op : CompareOp) (value : json)
    (cm : ColumnMap) : option Where :=
  match cm_lookup cm (toLowerCase attrPath) with
  | None => None
  | Some mapped => buildColumnFilter (column mapped) (ctype mapped) op value
  end.

Definition pushLogicalToDb (op : LogicalOp) (left right : option Where) : option Where :=
  match op with
  | LAnd =>
      match left, right with
      | Some l, Some r => Some [("AND", JArr [JObj l; JObj r])]
      | _, _ => None
      end
  | LOr =>
      match left, right with
      | Some l, Some r => Some [("OR", JArr [JObj l; JObj r])]
      | _, _ => None
      end
  end.

Fixpoint tryPushToDb (ast : FilterNode) (cm : ColumnMap) : option Where :=
  match ast with
  | Compare a op v => pushCompareToDb a op v cm
  | Logical op l r => pushLogicalToDb op (tryPushToDb l cm) (tryPushToDb r cm)
  | Not _ => None
  | ValuePath _ _ => None
  end.

(** The result of [buildFilterResult]; [inMemoryFilter] is the closure
    [resource => evaluateFilter(ast, resource)] when present. *)
Record FilterResult (Rec : Type) : Type := {
  dbWhere : Where;
  inMemoryFilter : option (Rec -> bool);
  fetchAll : bool }.
Arguments dbWhere {Rec}.
Arguments inMemoryFilter {Rec}.
Arguments fetchAll {Rec}.

(* ------------------------------------------------------------------ *)
(** ** In-memory Prisma where-clause evaluator ([prisma-filter-evaluator.ts]) *)

Definition matchEquality (stored expected : json) : bool :=
  match stored, expected with
  | JStr s, JStr e => String.eqb (toLowerCase s) (toLowerCase e)
  | _, _ => strict_eq stored expected
  end.

Inductive OrdOp : Type := Ogt | Ogte | Olt | Olte.

Definition ord_result (op : OrdOp) (c : comparison) : bool :=
  match op, c with
  | Ogt, Gt => true
  | Ogte, (Gt | Eq) => true
  | Olt, Lt => true
  | Olte, (Lt | Eq) => true
  | _, _ => false
  end.

Definition compareOrdered (stored expected : json) (op : OrdOp) : bool :=
  match stored, expected with
  | JNum s, JNum e => ord_result op (Z.compare s e)
  | JStr s, JStr e => ord_result op (String.compare (toLowerCase s) (toLowerCase e))
  | _, _ => false
  end.

(** Keys present on an operator object; arrays only carry index keys, none
    of which is an operator name. *)
Definition op_has (opObj : json) (k : string) : bool :=
  match opObj with JObj fs => obj_has fs k | _ => false end.

Definition op_get (opObj : json) (k : string) : json :=
  match opObj with JObj fs => obj_get fs k | _ => JUndef end.

Definition string_op (stored : json) (search : json) (caseInsensitive : bool)
    (f : string -> string -> bool) : bool :=
  match stored with
  | JStr s =>
      let q := js_String search in
      if caseInsensitive then f (toLowerCase s) (toLowerCase q) else f s q
  | _ => false
  end.

Definition matchOperator (stored : json) (opObj : json) : bool :=
  let caseInsensitive := strict_eq (op_get opObj "mode") (JStr "insensitive") in
  if op_has opObj "not" &&
     negb (op_has opObj "contains" || op_has opObj "startsWith" ||
           op_has opObj "endsWith" || op_has opObj "gt")
  then
    match op_get opObj "not" with
    | JNull => match stored with JNull | JUndef => false | _ => true end
    | notValue => negb (matchEquality stored notValue)
    end
  else if op_has opObj "contains" then
    string_op stored (op_get opObj "contains") caseInsensitive includes
  else if op_has opObj "startsWith" then
    string_op stored (op_get opObj "startsWith") caseInsensitive startsWith
  else if op_has opObj "endsWith" then
    string_op stored (op_get opObj "endsWith") caseInsensitive endsWith
  else if op_has opObj "gt" then compareOrdered stored (op_get opObj "gt") Ogt
  else if op_has opObj "gte" then compareOrdered stored (op_get opObj "gte") Ogte
  else if op_has opObj "lt" then compareOrdered stored (op_get opObj "lt") Olt
  else if op_has opObj "lte" then compareOrdered stored (op_get opObj "lte") Olte
  else false.

(** One non-compound entry [key: condition] of the where clause. *)
Definition match_field (record : list (string * json)) (key : string)
    (condition : json) : bool :=
  let stored := obj_get record key in
  match condition with
  | JObj _ | JArr _ => matchOperator stored condition
  | _ => matchEquality stored condition
  end.

(** [matchesPrismaFilter(record, filter)]; [None] is a thrown [TypeError]
    ([Object.entries(null)], or [.every] / [.some] on a non-array).  The
    entries of an array or string clause have index keys, never [AND] or
    [OR], so they are plain field entries. *)
Fixpoint matchesPrismaFilter (record : list (string * json)) (filter : json)
    {struct filter} : option bool :=
  match filter with
  | JObj fs =>
      (fix go (es : list (string * json)) : option bool :=
         match es with
         | [] => Some true
         | (key, condition) :: rest =>
             if String.eqb key "AND" then
               match condition with
               | JArr clauses =>
                   match (fix every (cs : list json) : option bool :=
                            match cs with
                            | [] => Some true
                            | c :: cs' =>
                                match matchesPrismaFilter record c with
                                | Some true => every cs'
                                | r => r
                                end
                            end) clauses with
                   | Some true => go rest
                   | r => r
                   end
               | _ => None
               end
             else if String.eqb key "OR" then
               match condition with
               | JArr clauses =>
                   match (fix some (cs : list json) : option bool :=
                            match cs with
                            | [] => Some false
                            | c :: cs' =>
                                match matchesPrismaFilter record c with
                                | Some false => some cs'
                                | r => r
                                end
                            end) clauses with
                   | Some true => go rest
                   | Some false => Some false
                   | None => None
                   end
               | _ => None
               end
             else if match_field record key condition then go rest
             else Some false
         end) fs
  | JArr xs =>
      Some (forallb (fun '(k, c) => match_field record k c) (index_entries 0 xs))
  | JStr s =>
      Some (forallb (fun '(k, c) => match_field record k c) (index_entries 0 (chars_of s)))
  | JNum _ | JBool _ => Some true
  | JNull | JUndef => None
  end.

(* ------------------------------------------------------------------ *)
(** ** In-memory filter evaluator *)

(** Modelled from the spec: [evaluateFilter] of [scim-filter-parser.ts]
    (not part of the sources), after section 4.2 of the spec.  The
    attribute path is looked up case-insensitively in the record, first as
    a whole key, then by dotted traversal.  [Compare] applies the operator
    per the runtime type of the stored value: two strings compare
    case-insensitively (equality, ordering, [co]/[sw]/[ew]), two numbers or
    two booleans structurally ([false < true]); [pr] holds iff the value is
    present and not null.  The spec leaves comparisons across runtime types
    open; here they fail, except [ne], which holds. *)
Fixpoint lookup_ci (fs : list (string * json)) (k : string) : option json :=
  match fs with
  | [] => None
  | (k', v) :: rest =>
      if String.eqb (toLowerCase k') (toLowerCase k) then Some v else lookup_ci rest k
  end.

Fixpoint split_dots (s : string) : list string :=
  match s with
  | EmptyString => [EmptyString]
  | String c s' =>
      if Ascii.eqb c "."%char then EmptyString :: split_dots s'
      else match split_dots s' with
           | [] => [String c EmptyString]
           | w :: ws => String c w :: ws
           end
  end.

Fixpoint resolve_segments (v : json) (segs : list string) : json :=
  match segs with
  | [] => v
  | k :: rest =>
      match v with
      | JObj fs =>
          match lookup_ci fs k with
          | Some x => resolve_segments x rest
          | None => JUndef
          end
      | _ => JUndef
      end
  end.

Definition resolveAttr (record : json) (attrPath : string) : json :=
  match record with
  | JObj fs =>
      match lookup_ci fs attrPath with
      | Some v => v
      | None => resolve_segments record (split_dots attrPath)
      end
  | _ => JUndef
  end.

Definition bool_compare (x y : bool) : comparison :=
  match x, y with
  | false, true => Lt
  | true, false => Gt
  | _, _ => Eq
  end.

Definition by_order (op : CompareOp) (c : comparison) : bool :=
  match op with
  | OpEq => match c with Eq => true | _ => false end
  | OpNe => match c with Eq => false | _ => true end
  | OpGt => ord_result Ogt c
  | OpGe => ord_result Ogte c
  | OpLt => ord_result Olt c
  | OpLe => ord_result Olte c
  | _ => false
  end.

Definition compareValues (op : CompareOp) (stored value : json) : bool :=
  match op with
  | OpPr => match stored with JUndef | JNull => false | _ => true end
  | _ =>
      match stored, value with
      | JStr s, JStr v =>
          let s' := toLowerCase s in
          let v' := toLowerCase v in
          match op with
          | OpCo => includes s' v'
          | OpSw => startsWith s' v'
          | OpEw => endsWith s' v'
          | _ => by_order op (String.compare s' v')
          end
      | JNum s, JNum v => by_order op (Z.compare s v)
      | JBool s, JBool v => by_order op (bool_compare s v)
      | _, _ => match op with OpNe => true | _ => false end
      end
  end.

Fixpoint evaluateFilter (node : FilterNode) (record : json) : bool :=
  match node with
  | Compare a op v => compareValues op (resolveAttr record a) v
  | Logical LAnd l r => evaluateFilter l record && evaluateFilter r record
  | Logical LOr l r => evaluateFilter l record || evaluateFilter r record
  | Not i => negb (evaluateFilter i record)
  | ValuePath a f =>
      match resolveAttr record a with
      | JArr xs => existsb (evaluateFilter f) xs
      | _ => false
      end
  end.

(** [buildFilterResult]: the records the in-memory filter sees are JSON
    resources. *)
Definition buildFilterResult (ast : FilterNode) (cm : ColumnMap) : FilterResult json :=
  match tryPushToDb ast cm with
  | Some dbClause => {| dbWhere := dbClause; inMemoryFilter := None; fetchAll := false |}
  | None => {| dbWhere := []; inMemoryFilter := Some (evaluateFilter ast); fetchAll := true |}
  end.

(* ------------------------------------------------------------------ *)
(** ** PATCH operations, errors and results ([patch-types.ts], [patch-error.ts]) *)

(** [operation.op] may be missing at run time ([op?.toLowerCase()]). *)
Record PatchOperation : Type := {
  op : option string;
  path : option string;
  value : json }.

Inductive ScimType : Type := invalidValue | invalidPath | noTarget.

(** [PatchError(status, message, scimType)]; the message is not modelled. *)
Record PatchError : Type := { status : Z; scimType : ScimType }.

Definition err400 (t : ScimType) : PatchError := {| status := 400; scimType := t |}.

Inductive result (A : Type) : Type :=
| Ok (a : A)
| Err (e : PatchError).
Arguments Ok {A}.
Arguments Err {A}.

Definition bind {A B} (m : result A) (k : A -> result B) : result B :=
  match m with Ok a => k a | Err e => Err e end.

Notation "x <- m ;; k" := (bind m (fun x => k))
  (at level 61, m at next level, right associativity).

(** [!v] on a JavaScript value. *)
Definition falsy (v : json) : bool :=
  match v with
  | JUndef | JNull | JBool false => true
  | JNum n => Z.eqb n 0
  | JStr s => String.eqb s EmptyString
  | _ => false
  end.

(** [path?.toLowerCase()] followed by [!path]: absent or empty. *)
Definition lower_path (p : option string) : option string := option_map toLowerCase p.

Definition no_path (p : option string) : bool :=
  match p with None => true | Some s => String.eqb s EmptyString end.

Definition path_is (p : option string) (s : string) : bool :=
  match p with Some q => String.eqb q s | None => false end.

(** [op?.toLowerCase()], kept when it is one of add, replace, remove. *)
Definition supported_op (o : option string) : option string :=
  match option_map toLowerCase o with
  | Some t =>
      if String.eqb t "add" then Some "add"
      else if String.eqb t "replace" then Some "replace"
      else if String.eqb t "remove" then Some "remove"
      else None
  | None => None
  end.

(** Named properties of an object value; an array has none of the names
    the engines read. *)
Definition prop (v : json) (k : string) : json :=
  match v with JObj fs => obj_get fs k | _ => JUndef end.

Definition has_prop (v : json) (k : string) : bool :=
  match v with JObj fs => obj_has fs k | _ => false end.

(** [Object.entries(v)] of an object or an array. *)
Definition entries (v : json) : list (string * json) :=
  match v with
  | JObj fs => fs
  | JArr xs => index_entries 0 xs
  | _ => []
  end.

(* ------------------------------------------------------------------ *)
(** ** Group PATCH engine ([group-patch-engine.ts]) *)

(** [GroupMemberDto]; [display] and [type] are [undefined] when absent, and
    [value] is whatever the request carried. *)
Record GroupMemberDto : Type := {
  m_value : json;
  m_display : json;
  m_type : json }.

Record GroupPatchState : Type := {
  g_displayName : string;
  g_externalId : option string;
  g_members : list GroupMemberDto;
  g_rawPayload : list (string * json) }.

Record GroupMemberPatchConfig : Type := {
  allowMultiMemberAdd : bool;
  allowMultiMemberRemove : bool;
  allowRemoveAllMembers : bool }.

Record GroupPatchResult : Type := {
  r_displayName : string;
  r_externalId : option string;
  r_payload : list (string * json);
  r_members : list GroupMemberDto }.

(** Map and Set keys compare with SameValueZero, which is [===] on the
    values here (numbers are integers). *)
Definition same_value_zero : json -> json -> bool := strict_eq.

(** [Map.prototype.set]: replace the entry of an equal key in place,
    append otherwise. *)
Fixpoint map_set (seen : list (json * GroupMemberDto)) (k : json) (m : GroupMemberDto)
    : list (json * GroupMemberDto) :=
  match seen with
  | [] => [(k, m)]
  | (k', m') :: rest =>
      if same_value_zero k' k then (k', m) :: rest else (k', m') :: map_set rest k m
  end.

(** ASCII [\s]. *)
Definition is_ws (c : ascii) : bool :=
  let n := nat_of_ascii c in
  (n =? 32)%nat || ((9 <=? n)%nat && (n <=? 13)%nat).

Fixpoint strip_prefix (pre s : string) : option string :=
  match pre, s with
  | EmptyString, _ => Some s
  | String c pre', String d s' => if Ascii.eqb c d then strip_prefix pre' s' else None
  | _, _ => None
  end.

(** The tails left by [\s+], longest match first (backtracking order). *)
Fixpoint ws_tails (s : string) : list string :=
  match s with
  | String c s' => if is_ws c then ws_tails s' ++ [s'] else []
  | EmptyString => []
  end.

(** The double-quote character. *)
Definition dquote : ascii := ascii_of_nat 34.

Fixpoint no_quote (s : string) : bool :=
  match s with
  | EmptyString => true
  | String c s' => negb (Ascii.eqb c dquote) && no_quote s'
  end.

Fixpoint str_rev (s : string) : string :=
  match s with
  | EmptyString => EmptyString
  | String c s' => append (str_rev s') (String c EmptyString)
  end.

(** The regex tail after the optional opening quote: a captured non-empty
    run of non-quote characters, an optional quote, a closing bracket, and
    the end of the input. *)
Definition capture_tail (r : string) : option string :=
  match str_rev r with
  | String "]" rbody =>
      let body := str_rev rbody in
      let fallback :=
        if no_quote body && negb (String.eqb body EmptyString) then Some body else None in
      match rbody with
      | String q rc =>
          if Ascii.eqb q dquote then
            let c := str_rev rc in
            if no_quote c && negb (String.eqb c EmptyString) then Some c else None
          else fallback
      | EmptyString => fallback
      end
  | _ => None
  end.

Definition capture_after_eq (r : string) : option string :=
  match r with
  | String q r' => if Ascii.eqb q dquote then capture_tail r' else capture_tail r
  | EmptyString => capture_tail r
  end.

Fixpoint first_some (xs : list (option string)) : option string :=
  match xs with
  | [] => None
  | Some x :: _ => Some x
  | None :: rest => first_some rest
  end.

(** The captured group of [path.match] with the regex of [handleRemove]
    (members, bracket, value, whitespace, eq, whitespace, optional quote,
    captured non-quote run, optional quote, bracket, end; case-insensitive)
    on a lowercased path. *)
Definition matchMemberPath (p : string) : option string :=
  match strip_prefix "members[value" p with
  | None => None
  | Some r1 =>
      first_some
        (map (fun t =>
                match strip_prefix "eq" t with
                | None => None
                | Some r2 => first_some (map capture_after_eq (ws_tails r2))
                end) (ws_tails r1))
  end.

Module GroupPatchEngine.

Definition toMemberDto (member : json) : result GroupMemberDto :=
  match member with
  | JObj fs =>
      if obj_has fs "value"
      then Ok {| m_value := obj_get fs "value";
                 m_display := obj_get fs "display";
                 m_type := obj_get fs "type" |}
      else Err (err400 invalidValue)
  | _ => Err (err400 invalidValue)
  end.

(** [xs.map(toMemberDto)]: the first failure is thrown. *)
Fixpoint toMemberDtos (xs : list json) : result (list GroupMemberDto) :=
  match xs with
  | [] => Ok []
  | x :: rest => m <- toMemberDto x ;; ms <- toMemberDtos rest ;; Ok (m :: ms)
  end.

Definition ensureUniqueMembers (members : list GroupMemberDto) : list GroupMemberDto :=
  map snd (fold_left (fun seen m => map_set seen (m_value m) m) members []).

Definition handleReplace (operation : PatchOperation) (currentDisplayName : string)
    (currentExternalId : option string) (members : list GroupMemberDto)
    (rawPayload : list (string * json))
    : result (string * option string * list GroupMemberDto * list (string * json)) :=
  let p := lower_path (path operation) in
  if no_path p then
    match value operation with
    | JStr s => Ok (s, currentExternalId, members, rawPayload)
    | (JObj _ | JArr _) as obj =>
        let newDisplayName :=
          match prop obj "displayName" with JStr s => s | _ => currentDisplayName end in
        let newExternalId :=
          if has_prop obj "externalId"
          then match prop obj "externalId" with JStr s => Some s | _ => None end
          else currentExternalId in
        newMembers <-
          match prop obj "members" with
          | JArr ms => ds <- toMemberDtos ms ;; Ok (ensureUniqueMembers ds)
          | _ => Ok members
          end ;;
        let updatedPayload :=
          fold_left (fun acc '(key, val) =>
                       if String.eqb key "displayName" || String.eqb key "externalId" ||
                          String.eqb key "members" || String.eqb key "schemas"
                       then acc else obj_set acc key val)
                    (entries obj) rawPayload in
        Ok (newDisplayName, newExternalId, newMembers, updatedPayload)
    | _ => Err (err400 invalidValue)
    end
  else if path_is p "displayname" then
    match value operation with
    | JStr s => Ok (s, currentExternalId, members, rawPayload)
    | _ => Err (err400 invalidValue)
    end
  else if path_is p "externalid" then
    let newExtId := match value operation with JStr s => Some s | _ => None end in
    Ok (currentDisplayName, newExtId, members, rawPayload)
  else if path_is p "members" then
    match value operation with
    | JArr ms =>
        normalized <- toMemberDtos ms ;;
        Ok (currentDisplayName, currentExternalId, ensureUniqueMembers normalized, rawPayload)
    | _ => Err (err400 invalidValue)
    end
  else Err (err400 invalidPath).

Definition handleAdd (operation : PatchOperation) (members : list GroupMemberDto)
    (allowMultiMemberAdd : bool) : result (list GroupMemberDto) :=
  let p := lower_path (path operation) in
  if negb (no_path p) && negb (path_is p "members")
  then Err (err400 invalidPath)
  else if falsy (value operation) then Err (err400 invalidValue)
  else
    let vals := match value operation with JArr xs => xs | v => [v] end in
    if negb allowMultiMemberAdd && (1 <? length vals)%nat
    then Err (err400 invalidValue)
    else
      newMembers <- toMemberDtos vals ;;
      Ok (ensureUniqueMembers (members ++ newMembers)).

Definition member_value_to_remove (item : json) : option json :=
  match item with
  | JObj fs => if obj_has fs "value" then Some (obj_get fs "value") else None
  | _ => None
  end.

Definition handleRemove (operation : PatchOperation) (members : list GroupMemberDto)
    (allowMultiMemberRemove allowRemoveAllMembers : bool)
    : result (list GroupMemberDto) :=
  let p := lower_path (path operation) in
  match value operation with
  | JArr ((_ :: _) as xs) =>
      if negb allowMultiMemberRemove && (1 <? length xs)%nat
      then Err (err400 invalidValue)
      else
        let membersToRemove := flat_map (fun it =>
                                 match member_value_to_remove it with
                                 | Some v => [v] | None => [] end) xs in
        Ok (filter (fun m => negb (existsb (same_value_zero (m_value m)) membersToRemove))
                   members)
  | _ =>
      match option_map matchMemberPath p with
      | Some (Some valueToRemove) =>
          Ok (filter (fun m => negb (strict_eq (m_value m) (JStr valueToRemove))) members)
      | _ =>
          if path_is p "members" then
            if allowRemoveAllMembers then Ok [] else Err (err400 invalidValue)
          else Err (err400 invalidPath)
      end
  end.

Definition step (config : GroupMemberPatchConfig) (st : GroupPatchResult)
    (operation : PatchOperation) : result GroupPatchResult :=
  match supported_op (op operation) with
  | Some "replace" =>
      match handleReplace operation (r_displayName st) (r_externalId st)
              (r_members st) (r_payload st) with
      | Ok (dn, ext, ms, raw) =>
          Ok {| r_displayName := dn; r_externalId := ext; r_payload := raw; r_members := ms |}
      | Err e => Err e
      end
  | Some "add" =>
      ms <- handleAdd operation (r_members st) (allowMultiMemberAdd config) ;;
      Ok {| r_displayName := r_displayName st; r_externalId := r_externalId st;
            r_payload := r_payload st; r_members := ms |}
  | Some _ =>
      ms <- handleRemove operation (r_members st) (allowMultiMemberRemove config)
              (allowRemoveAllMembers config) ;;
      Ok {| r_displayName := r_displayName st; r_externalId := r_externalId st;
            r_payload := r_payload st; r_members := ms |}
  | None => Err (err400 invalidValue)
  end.

Fixpoint run (config : GroupMemberPatchConfig) (st : GroupPatchResult)
    (operations : list PatchOperation) : result GroupPatchResult :=
  match operations with
  | [] => Ok st
  | o :: rest => st' <- step config st o ;; run config st' rest
  end.

Definition apply (operations : list PatchOperation) (state : GroupPatchState)
    (config : GroupMemberPatchConfig) : result GroupPatchResult :=
  run config {| r_displayName := g_displayName state; r_externalId := g_externalId state;
                r_payload := g_rawPayload state; r_members := g_members state |}
      operations.

End GroupPatchEngine.

(* ------------------------------------------------------------------ *)
(** ** User PATCH engine ([user-patch-engine.ts]) *)

(** The user engine copies [state.rawPayload] with an object spread, which
    copies the top-level entries but shares the objects they hold.  A
    top-level entry is therefore a [slot]: either a value owned by the
    payload being built, or a reference [SRef l] to a plain (non-array)
    object living in the [heap] that the caller shares.  Writing through a
    reference ([applyDotNotation]) updates the heap, and is visible to
    whoever else holds the reference. *)
Definition loc := nat.

Inductive slot : Type :=
| SVal (v : json)
| SRef (l : loc).

Definition heap := loc -> list (string * json).

Definition heap_upd (h : heap) (l : loc) (fs : list (string * json)) : heap :=
  fun l' => if Nat.eqb l' l then fs else h l'.

Definition Payload := list (string * slot).

(** The JSON value an entry denotes in a heap. *)
Definition deref (h : heap) (s : slot) : json :=
  match s with SVal v => v | SRef l => JObj (h l) end.

Definition deref_payload (h : heap) (p : Payload) : list (string * json) :=
  map (fun '(k, s) => (k, deref h s)) p.

(** The engine's computations: a heap-passing state monad with the
    [PatchError] exception; a thrown error keeps the heap writes done so
    far, as JavaScript does. *)
Definition UM (A : Type) : Type := heap -> result A * heap.

Definition ret {A} (a : A) : UM A := fun h => (Ok a, h).

Definition throw {A} (t : ScimType) : UM A := fun h => (Err (err400 t), h).

Definition lift {A} (m : result A) : UM A := fun h => (m, h).

Definition bindM {A B} (m : UM A) (k : A -> UM B) : UM B :=
  fun h => match m h with
           | (Ok a, h') => k a h'
           | (Err e, h') => (Err e, h')
           end.

Notation "x <-- m ;;; k" := (bindM m (fun x => k))
  (at level 61, m at next level, right associativity).

Record UserPatchState : Type := {
  u_userName : string;
  u_displayName : option string;
  u_externalId : option string;
  u_active : bool;
  u_rawPayload : Payload }.

Record PatchConfig : Type := { verbosePatch : bool }.

(** [UserExtractedFields]; [apply] always fills all four. *)
Record UserFields : Type := {
  f_userName : string;
  f_displayName : option string;
  f_externalId : option string;
  f_active : bool }.

Record UserPatchResult : Type := {
  payload : Payload;
  extractedFields : UserFields }.

Definition with_userName (f : UserFields) (s : string) : UserFields :=
  {| f_userName := s; f_displayName := f_displayName f;
     f_externalId := f_externalId f; f_active := f_active f |}.
Definition with_displayName (f : UserFields) (s : option string) : UserFields :=
  {| f_userName := f_userName f; f_displayName := s;
     f_externalId := f_externalId f; f_active := f_active f |}.
Definition with_externalId (f : UserFields) (s : option string) : UserFields :=
  {| f_userName := f_userName f; f_displayName := f_displayName f;
     f_externalId := s; f_active := f_active f |}.
Definition with_active (f : UserFields) (b : bool) : UserFields :=
  {| f_userName := f_userName f; f_displayName := f_displayName f;
     f_externalId := f_externalId f; f_active := b |}.

Definition json_of_nullable (s : option string) : json :=
  match s with Some x => JStr x | None => JNull end.

(** [CANONICAL_KEY_MAP], indexed by the lowercased key. *)
Definition CANONICAL_KEY_MAP : list (string * string) :=
  [("username", "userName"); ("externalid", "externalId"); ("active", "active");
   ("displayname", "displayName"); ("name", "name"); ("nickname", "nickName");
   ("profileurl", "profileUrl"); ("title", "title"); ("usertype", "userType");
   ("preferredlanguage", "preferredLanguage"); ("locale", "locale");
   ("timezone", "timezone"); ("emails", "emails"); ("phonenumbers", "phoneNumbers");
   ("addresses", "addresses"); ("photos", "photos"); ("ims", "ims"); ("roles", "roles");
   ("entitlements", "entitlements"); ("x509certificates", "x509Certificates")].

Fixpoint assoc_str (m : list (string * string)) (k : string) : option string :=
  match m with
  | [] => None
  | (k', v) :: rest => if String.eqb k' k then Some v else assoc_str rest k
  end.

(** [RESERVED_ATTRIBUTES.has(key) || RESERVED_ATTRIBUTES.has(key.toLowerCase())]. *)
Definition RESERVED_ATTRIBUTES : list string :=
  ["id"; "username"; "userid"; "userName"; "externalid"; "externalId"; "active"].

Definition is_reserved (key : string) : bool :=
  existsb (String.eqb key) RESERVED_ATTRIBUTES ||
  existsb (String.eqb (toLowerCase key)) RESERVED_ATTRIBUTES.

(** [s.indexOf(c)] split: the text before the first [c] and after it. *)
Fixpoint split_at_char (c : ascii) (s : string) : option (string * string) :=
  match s with
  | EmptyString => None
  | String d s' =>
      if Ascii.eqb d c then Some (EmptyString, s')
      else match split_at_char c s' with
           | Some (a, b) => Some (String d a, b)
           | None => None
           end
  end.

Definition has_char (c : ascii) (s : string) : bool :=
  match split_at_char c s with Some _ => true | None => false end.

(** [Object.keys(raw).find(k => k.toLowerCase() === attr.toLowerCase())]. *)
Fixpoint find_key_ci {A} (raw : list (string * A)) (attr : string) : option string :=
  match raw with
  | [] => None
  | (k, _) :: rest =>
      if String.eqb (toLowerCase k) (toLowerCase attr) then Some k else find_key_ci rest attr
  end.

Fixpoint slot_get (raw : Payload) (k : string) : option slot :=
  match raw with
  | [] => None
  | (k', s) :: rest => if String.eqb k' k then Some s else slot_get rest k
  end.

(* ------------------------------------------------------------------ *)
(** ** Path helpers of [scim-patch-path.ts] *)

(** Modelled from the spec: [scim-patch-path.ts] is imported by the user
    engine but is not part of the sources.  Following the Patch Path
    Resolver and the transition rules of the spec, an extension path is a
    path starting with a [urn:] prefix, split at its last colon into the
    URN (the payload key) and a non-empty sub-attribute; an update locates
    the URN object (or creates it) and assigns the sub-attribute, a removal
    deletes it.  The helpers build new objects and never write through a
    shared reference. *)
Definition isExtensionPath (p : string) : bool := startsWith (toLowerCase p) "urn:".

Definition parseExtensionPath (p : string) : option (string * string) :=
  match split_at_char ":"%char (str_rev p) with
  | Some (rsub, rurn) =>
      let sub := str_rev rsub in
      if String.eqb sub EmptyString then None else Some (str_rev rurn, sub)
  | None => None
  end.

Definition container_fields (h : heap) (s : option slot) : list (string * json) :=
  match s with
  | Some (SRef l) => h l
  | Some (SVal (JObj fs)) => fs
  | _ => []
  end.

Definition applyExtensionUpdate (h : heap) (raw : Payload) (ext : string * string)
    (v : json) : Payload :=
  let '(urn, sub) := ext in
  obj_set raw urn (SVal (JObj (obj_set (container_fields h (slot_get raw urn)) sub v))).

Definition removeExtensionAttribute (h : heap) (raw : Payload) (ext : string * string)
    : Payload :=
  let '(urn, sub) := ext in
  match slot_get raw urn with
  | Some (SRef l) => obj_set raw urn (SVal (JObj (obj_delete (h l) sub)))
  | Some (SVal (JObj fs)) => obj_set raw urn (SVal (JObj (obj_delete fs sub)))
  | _ => raw
  end.

(** Modelled from the spec: a value path is [attr[field eq "literal"]],
    optionally followed by [.sub]; the literal is compared with the
    element's field case-insensitively.  [replace] updates every matching
    element of the multi-valued attribute (its sub-attribute, or the whole
    element when there is no sub-attribute) and leaves the others alone;
    [add] does the same, or appends a new element carrying the selector
    when nothing matches; [remove] deletes the sub-attribute of the
    matching elements, or the matching elements themselves.  A path that
    does not parse yields [None]. *)
Record ParsedValuePath : Type := {
  vp_attr : string;
  vp_field : string;
  vp_literal : string;
  vp_sub : option string }.

Definition isValuePath (p : string) : bool := has_char "["%char p.

Definition unquote (s : string) : option string :=
  match s with
  | String q r =>
      if Ascii.eqb q dquote then
        match str_rev r with
        | String q' rr =>
            let lit := str_rev rr in
            if Ascii.eqb q' dquote && no_quote lit then Some lit else None
        | EmptyString => None
        end
      else None
  | EmptyString => None
  end.

Definition parseValuePath (p : string) : option ParsedValuePath :=
  match split_at_char "["%char p with
  | Some (attr, rest) =>
      match split_at_char "]"%char rest with
      | Some (inner, tail) =>
          let sub :=
            match tail with
            | EmptyString => Some None
            | String "." s => if String.eqb s EmptyString then None else Some (Some s)
            | _ => None
            end in
          match sub, split_at_char " "%char inner with
          | Some sub, Some (field, r) =>
              match strip_prefix "eq " (toLowerCase r) with
              | Some _ =>
                  match unquote (substring 3 (String.length r - 3) r) with
                  | Some lit =>
                      Some {| vp_attr := attr; vp_field := field; vp_literal := lit;
                              vp_sub := sub |}
                  | None => None
                  end
              | None => None
              end
          | _, _ => None
          end
      | None => None
      end
  | None => None
  end.

Definition vp_matches (vp : ParsedValuePath) (el : json) : bool :=
  match el with
  | JObj fs =>
      match lookup_ci fs (vp_field vp) with
      | Some (JStr s) => String.eqb (toLowerCase s) (toLowerCase (vp_literal vp))
      | _ => false
      end
  | _ => false
  end.

Definition vp_update (vp : ParsedValuePath) (v : json) (el : json) : json :=
  match vp_sub vp, el with
  | Some sub, JObj fs => JObj (obj_set fs sub v)
  | Some _, _ => el
  | None, _ => v
  end.

Definition vp_elements (raw : Payload) (vp : ParsedValuePath) : list json :=
  match slot_get raw (vp_attr vp) with
  | Some (SVal (JArr xs)) => xs
  | _ => []
  end.

Definition applyValuePathUpdate (raw : Payload) (vp : ParsedValuePath) (v : json) : Payload :=
  obj_set raw (vp_attr vp)
    (SVal (JArr (map (fun el => if vp_matches vp el then vp_update vp v el else el)
                     (vp_elements raw vp)))).

Definition addValuePathEntry (raw : Payload) (vp : ParsedValuePath) (v : json) : Payload :=
  let xs := vp_elements raw vp in
  if existsb (vp_matches vp) xs then applyValuePathUpdate raw vp v
  else
    let fresh :=
      match vp_sub vp with
      | Some sub => JObj [(vp_field vp, JStr (vp_literal vp)); (sub, v)]
      | None => v
      end in
    obj_set raw (vp_attr vp) (SVal (JArr (xs ++ [fresh]))).

Definition removeValuePathEntry (raw : Payload) (vp : ParsedValuePath) : Payload :=
  let xs := vp_elements raw vp in
  let xs' :=
    match vp_sub vp with
    | Some sub =>
        map (fun el => match el with
                       | JObj fs => if vp_matches vp el then JObj (obj_delete fs sub) else el
                       | _ => el
                       end) xs
    | None => filter (fun el => negb (vp_matches vp el)) xs
    end in
  obj_set raw (vp_attr vp) (SVal (JArr xs')).

(** Modelled from the spec: a no-path [add]/[replace] merges the remaining
    keys of the normalized value verbatim into the payload. *)
Definition resolveNoPathValue (raw : Payload) (updateObj : list (string * json)) : Payload :=
  fold_left (fun acc '(k, v) => obj_set acc k (SVal v)) updateObj raw.

Module UserPatchEngine.

(** [normalizeObjectKeys], over [Object.entries] of the value. *)
Definition normalizeObjectKeys (obj : list (string * json)) : list (string * json) :=
  fold_left (fun result '(key, v) =>
               let canonical :=
                 match assoc_str CANONICAL_KEY_MAP (toLowerCase key) with
                 | Some c => c | None => key end in
               obj_set result canonical v) obj [].

Definition extractStringValue (v : json) : result string :=
  match v with JStr s => Ok s | _ => Err (err400 invalidValue) end.

Definition extractNullableStringValue (v : json) : result (option string) :=
  match v with
  | JNull | JUndef => Ok None
  | JStr s => Ok (Some s)
  | _ => Err (err400 invalidValue)
  end.

Definition bool_of_string (s : string) : option bool :=
  let lower := toLowerCase s in
  if String.eqb lower "true" then Some true
  else if String.eqb lower "false" then Some false
  else None.

Definition extractBooleanValue (v : json) : result bool :=
  match v with
  | JBool b => Ok b
  | JStr s => match bool_of_string s with Some b => Ok b | None => Err (err400 invalidValue) end
  | JObj fs =>
      if obj_has fs "active" then
        match obj_get fs "active" with
        | JBool b => Ok b
        | JStr s => match bool_of_string s with
                    | Some b => Ok b | None => Err (err400 invalidValue) end
        | _ => Err (err400 invalidValue)
        end
      else Err (err400 invalidValue)
  | _ => Err (err400 invalidValue)
  end.

Definition stripReservedAttributes (p : Payload) : Payload :=
  filter (fun '(key, _) => negb (is_reserved key)) p.

Definition removeAttribute (p : Payload) (attribute : string) : Payload :=
  let target := toLowerCase attribute in
  filter (fun '(key, _) => negb (String.eqb (toLowerCase key) target)) p.

(** [applyDotNotation]: a nested object held by reference is written in
    place; any other parent is replaced by a fresh object. *)
Definition applyDotNotation (raw : Payload) (originalPath : string) (v : json)
    : UM Payload :=
  fun h =>
    let '(parentAttr, childAttr) :=
      match split_at_char "."%char originalPath with
      | Some pc => pc | None => (originalPath, EmptyString) end in
    let parentKey := match find_key_ci raw parentAttr with
                     | Some k => k | None => parentAttr end in
    match slot_get raw parentKey with
    | Some (SRef l) => (Ok raw, heap_upd h l (obj_set (h l) childAttr v))
    | Some (SVal (JObj fs)) =>
        (Ok (obj_set raw parentKey (SVal (JObj (obj_set fs childAttr v)))), h)
    | _ => (Ok (obj_set raw parentKey (SVal (JObj [(childAttr, v)]))), h)
    end.

Definition removeDotNotation (raw : Payload) (originalPath : string) : UM Payload :=
  fun h =>
    let '(parentAttr, childAttr) :=
      match split_at_char "."%char originalPath with
      | Some pc => pc | None => (originalPath, EmptyString) end in
    let parentKey := match find_key_ci raw parentAttr with
                     | Some k => k | None => parentAttr end in
    match slot_get raw parentKey with
    | Some (SRef l) => (Ok raw, heap_upd h l (obj_delete (h l) childAttr))
    | Some (SVal (JObj fs)) =>
        (Ok (obj_set raw parentKey (SVal (JObj (obj_delete fs childAttr)))), h)
    | _ => (Ok raw, h)
    end.

(** [if (originalPath)]: present and non-empty. *)
Definition truthy_path (p : option string) : option string :=
  match p with Some s => if String.eqb s EmptyString then None else Some s | None => None end.

Definition applyAddOrReplace (op : string) (originalPath : option string) (v : json)
    (f : UserFields) (rawPayload : Payload) (config : PatchConfig)
    : UM (UserFields * Payload) :=
  let p := lower_path originalPath in
  if path_is p "active" then
    val <-- lift (extractBooleanValue v) ;;;
    ret (with_active f val, obj_set rawPayload "active" (SVal (JBool val)))
  else if path_is p "username" then
    s <-- lift (extractStringValue v) ;;;
    ret (with_userName f s, rawPayload)
  else if path_is p "displayname" then
    val <-- lift (extractNullableStringValue v) ;;;
    ret (with_displayName f val,
         obj_set rawPayload "displayName" (SVal (json_of_nullable val)))
  else if path_is p "externalid" then
    val <-- lift (extractNullableStringValue v) ;;;
    ret (with_externalId f val, rawPayload)
  else
    match truthy_path originalPath with
    | Some orig =>
        if isExtensionPath orig then
          fun h =>
            match parseExtensionPath orig with
            | Some ext => (Ok (f, applyExtensionUpdate h rawPayload ext v), h)
            | None => (Ok (f, rawPayload), h)
            end
        else if isValuePath orig then
          match parseValuePath orig with
          | Some vp =>
              ret (f, if String.eqb op "add" then addValuePathEntry rawPayload vp v
                      else applyValuePathUpdate rawPayload vp v)
          | None => ret (f, rawPayload)
          end
        else if verbosePatch config && has_char "."%char orig then
          raw' <-- applyDotNotation rawPayload orig v ;;;
          ret (f, raw')
        else ret (f, obj_set rawPayload orig (SVal v))
    | None =>
        match v with
        | JObj _ | JArr _ =>
            let updateObj := normalizeObjectKeys (entries v) in
            f1 <-- (if obj_has updateObj "userName"
                    then s <-- lift (extractStringValue (obj_get updateObj "userName")) ;;;
                         ret (with_userName f s)
                    else ret f) ;;;
            let updateObj := obj_delete updateObj "userName" in
            f2 <-- (if obj_has updateObj "displayName"
                    then s <-- lift (extractNullableStringValue
                                       (obj_get updateObj "displayName")) ;;;
                         ret (with_displayName f1 s)
                    else ret f1) ;;;
            f3 <-- (if obj_has updateObj "externalId"
                    then s <-- lift (extractNullableStringValue
                                       (obj_get updateObj "externalId")) ;;;
                         ret (with_externalId f2 s)
                    else ret f2) ;;;
            let updateObj := obj_delete updateObj "externalId" in
            f4 <-- (if obj_has updateObj "active"
                    then b <-- lift (extractBooleanValue (obj_get updateObj "active")) ;;;
                         ret (with_active f3 b)
                    else ret f3) ;;;
            let updateObj := obj_delete updateObj "active" in
            ret (f4, resolveNoPathValue rawPayload updateObj)
        | _ => ret (f, rawPayload)
        end
    end.

Definition applyRemove (originalPath : option string) (active : bool)
    (rawPayload : Payload) (config : PatchConfig) : UM (bool * Payload) :=
  let p := lower_path originalPath in
  if path_is p "active" then ret (false, obj_set rawPayload "active" (SVal (JBool false)))
  else
    match truthy_path originalPath with
    | Some orig =>
        if isExtensionPath orig then
          fun h =>
            match parseExtensionPath orig with
            | Some ext => (Ok (active, removeExtensionAttribute h rawPayload ext), h)
            | None => (Ok (active, rawPayload), h)
            end
        else if isValuePath orig then
          match parseValuePath orig with
          | Some vp => ret (active, removeValuePathEntry rawPayload vp)
          | None => ret (active, rawPayload)
          end
        else if verbosePatch config && has_char "."%char orig then
          raw' <-- removeDotNotation rawPayload orig ;;;
          ret (active, raw')
        else ret (active, removeAttribute rawPayload orig)
    | None => throw noTarget
    end.

Definition step (config : PatchConfig) (st : UserFields * Payload)
    (operation : PatchOperation) : UM (UserFields * Payload) :=
  let '(f, rawPayload) := st in
  match supported_op (op operation) with
  | Some "remove" =>
      r <-- applyRemove (path operation) (f_active f) rawPayload config ;;;
      ret (with_active f (fst r), snd r)
  | Some o => applyAddOrReplace o (path operation) (value operation) f rawPayload config
  | None => throw invalidValue
  end.

Fixpoint run (config : PatchConfig) (st : UserFields * Payload)
    (operations : list PatchOperation) : UM (UserFields * Payload) :=
  match operations with
  | [] => ret st
  | o :: rest => st' <-- step config st o ;;; run config st' rest
  end.

Definition apply (operations : list PatchOperation) (state : UserPatchState)
    (config : PatchConfig) : UM UserPatchResult :=
  st <-- run config
           ({| f_userName := u_userName state; f_displayName := u_displayName state;
               f_externalId := u_externalId state; f_active := u_active state |},
            u_rawPayload state) operations ;;;
  ret {| payload := stripReservedAttributes (snd st); extractedFields := fst st |}.

End UserPatchEngine.

(* ------------------------------------------------------------------ *)
(** ** Specification-side notions used by the theorems *)

(** Structural equality of JSON values. *)
Fixpoint json_eqb (a b : json) : bool :=
  match a, b with
  | JUndef, JUndef | JNull, JNull => true
  | JBool x, JBool y => Bool.eqb x y
  | JNum x, JNum y => Z.eqb x y
  | JStr x, JStr y => String.eqb x y
  | JArr xs, JArr ys =>
      (fix go (xs ys : list json) : bool :=
         match xs, ys with
         | [], [] => true
         | x :: xs', y :: ys' => json_eqb x y && go xs' ys'
         | _, _ => false
         end) xs ys
  | JObj fs, JObj gs =>
      (fix go (fs gs : list (string * json)) : bool :=
         match fs, gs with
         | [], [] => true
         | (k, x) :: fs', (k', y) :: gs' => String.eqb k k' && json_eqb x y && go fs' gs'
         | _, _ => false
         end) fs gs
  | _, _ => false
  end.

Definition is_string (v : json) : bool := match v with JStr _ => true | _ => false end.
Definition is_bool (v : json) : bool := match v with JBool _ => true | _ => false end.

(** A comparison literal of the filter grammar other than [null]. *)
Definition is_literal (v : json) : bool :=
  match v with JStr _ | JNum _ | JBool _ => true | _ => false end.

(** The literal of a comparison is one the storage predicate renders
    faithfully for the stored value [x]: substring operators compare a
    stored string with a string, ordering operators never compare two
    booleans. *)
Definition literal_ok (op : CompareOp) (v x : json) : bool :=
  match op with
  | OpPr => true
  | OpEq | OpNe => is_literal v
  | OpCo | OpSw | OpEw => is_literal v && (negb (is_string x) || is_string v)
  | OpGt | OpGe | OpLt | OpLe => is_literal v && negb (is_bool x && is_bool v)
  end.

(** The record exposes every compared, mapped attribute under its column
    name, and the literals are ones the storage predicate renders
    faithfully. *)
Fixpoint aligned (cm : ColumnMap) (fs : list (string * json)) (ast : FilterNode) : bool :=
  match ast with
  | Compare a op v =>
      match cm_lookup cm (toLowerCase a) with
      | Some m =>
          json_eqb (resolveAttr (JObj fs) a) (obj_get fs (column m)) &&
          literal_ok op v (obj_get fs (column m))
      | None => true
      end
  | Logical _ l r => aligned cm fs l && aligned cm fs r
  | _ => true
  end.

(** No two members share a value under SameValueZero. *)
Fixpoint unique_values (ms : list GroupMemberDto) : bool :=
  match ms with
  | [] => true
  | m :: rest =>
      negb (existsb (fun m' => same_value_zero (m_value m') (m_value m)) rest) &&
      unique_values rest
  end.

Definition is_add_or_replace (o : PatchOperation) : bool :=
  match supported_op (op o) with
  | Some "add" | Some "replace" => true
  | _ => false
  end.

(** The member entries an [add] or [replace] operation supplies, in order. *)
Definition supplied_members (o : PatchOperation) : list json :=
  let p := lower_path (path o) in
  match supported_op (op o) with
  | Some "add" => match value o with JArr xs => xs | v => [v] end
  | Some "replace" =>
      if no_path p then match prop (value o) "members" with JArr ms => ms | _ => [] end
      else if path_is p "members" then match value o with JArr ms => ms | _ => [] end
      else []
  | _ => []
  end.

(** The last supplied entry whose [value] equals [v]. *)
Fixpoint last_supplied (v : json) (es : list json) : option json :=
  match es with
  | [] => None
  | e :: rest =>
      match last_supplied v rest with
      | Some x => Some x
      | None => if same_value_zero (prop e "value") v then Some e else None
      end
  end.

(** The last member of a list whose [value] equals [v]. *)
Fixpoint last_member (v : json) (ds : list GroupMemberDto) : option GroupMemberDto :=
  match ds with
  | [] => None
  | d :: rest =>
      match last_member v rest with
      | Some x => Some x
      | None => if same_value_zero (m_value d) v then Some d else None
      end
  end.

(** The keys of a [Map] built by [ensureUniqueMembers] are pairwise distinct. *)
Fixpoint keys_unique (seen : list (json * GroupMemberDto)) : Prop :=
  match seen with
  | [] => True
  | (k, _) :: rest =>
      (forall k' m', In (k', m') rest -> same_value_zero k' k = false) /\ keys_unique rest
  end.

(** The shape shared by the merges of both engines: each entry [(k, v)] of
    [E] whose key is not skipped by [skip] is written with [obj[k] = conv v]. *)
Definition obj_merge {A B} (skip : string -> bool) (conv : A -> B)
    (E : list (string * A)) (y : list (string * B)) : list (string * B) :=
  fold_left (fun acc '(k, v) => if skip k then acc else obj_set acc k (conv v)) E y.

Definition group_state_of (res : GroupPatchResult) : GroupPatchState :=
  {| g_displayName := r_displayName res; g_externalId := r_externalId res;
     g_members := r_members res; g_rawPayload := r_payload res |}.

Definition user_fields_of (s : UserPatchState) : UserFields :=
  {| f_userName := u_userName s; f_displayName := u_displayName s;
     f_externalId := u_externalId s; f_active := u_active s |}.

Definition user_state_of (res : UserPatchResult) : UserPatchState :=
  {| u_userName := f_userName (extractedFields res);
     u_displayName := f_displayName (extractedFields res);
     u_externalId := f_externalId (extractedFields res);
     u_active := f_active (extractedFields res);
     u_rawPayload := payload res |}.

(** The boolean-like values of the spec, after its own words: a boolean, a
    case-insensitive [true]/[false] string, or an object whose [active] is
    one of those. *)
Definition spec_bool_string (s : string) : option bool :=
  if String.eqb (toLowerCase s) "true" then Some true
  else if String.eqb (toLowerCase s) "false" then Some false
  else None.

Definition spec_bool_like (v : json) : option bool :=
  match v with
  | JBool b => Some b
  | JStr s => spec_bool_string s
  | JObj fs =>
      match obj_get fs "active" with
      | JBool b => Some b
      | JStr s => spec_bool_string s
      | _ => None
      end
  | _ => None
  end.

(** The server-managed keys, lowercased. *)
Definition SERVER_MANAGED : list string := ["id"; "username"; "externalid"; "active"].

(* ------------------------------------------------------------------ *)
(** ** Notions used by the further properties *)

Definition is_remove (o : PatchOperation) : bool :=
  match supported_op (op o) with Some "remove" => true | _ => false end.

Definition group_first_class_key (k : string) : bool :=
  String.eqb k "displayName" || String.eqb k "externalId" ||
  String.eqb k "members" || String.eqb k "schemas".

Definition pureM {A} (m : UM A) : Prop := forall h, snd (m h) = h.

Definition last_ci (lk : string) (E : list (string * json)) : json :=
  fold_left (fun acc '(k, v) => if String.eqb (toLowerCase k) lk then v else acc) E JUndef.

Definition canon_key (key : string) : string :=
  match assoc_str CANONICAL_KEY_MAP (toLowerCase key) with Some c => c | None => key end.

Definition comparable_pair (stored expected : json) : bool :=
  match stored, expected with
  | JNum _, JNum _ | JStr _, JStr _ => true
  | _, _ => false
  end.

(* ================================================================== *)
(** * Theorems *)

(* ------------------------------------------------------------------ *)
(** ** Shared lemmas *)

Lemma supported_op_cases (o : option string) :
  supported_op o = Some "add" \/ supported_op o = Some "replace" \/
  supported_op o = Some "remove" \/ supported_op o = None.
Proof.
  unfold supported_op. destruct (option_map toLowerCase o) as [t|]; [|auto].
  destruct (String.eqb t "add"); [auto|].
  destruct (String.eqb t "replace"); [auto|].
  destruct (String.eqb t "remove"); auto.
Qed.

Lemma group_run_app (config : GroupMemberPatchConfig) (st : GroupPatchResult)
    (a b : list PatchOperation) :
  GroupPatchEngine.run config st (a ++ b) =
  bind (GroupPatchEngine.run config st a) (fun st' => GroupPatchEngine.run config st' b).
Proof.
  revert st. induction a as [|o a IH]; intro st; simpl; [reflexivity|].
  destruct (GroupPatchEngine.step config st o); simpl; [apply IH|reflexivity].
Qed.

Lemma obj_has_false_get (fs : list (string * json)) (k : string) :
  obj_has fs k = false -> obj_get fs k = JUndef.
Proof.
  induction fs as [|[k' v] fs IH]; simpl; [reflexivity|].
  destruct (String.eqb k' k); simpl; [discriminate|exact IH].
Qed.

Lemma extractBooleanValue_spec (v : json) :
  UserPatchEngine.extractBooleanValue v =
  match spec_bool_like v with Some b => Ok b | None => Err (err400 invalidValue) end.
Proof.
  destruct v as [| |b|n|s|xs|fs]; try reflexivity.
  simpl. destruct (obj_has fs "active") eqn:E.
  - destruct (obj_get fs "active"); reflexivity.
  - rewrite (obj_has_false_get _ _ E). reflexivity.
Qed.

(* ------------------------------------------------------------------ *)
(** ** Filter push-down *)

(** The planner pushes [id eq "abc"] for users to the column [scimId]; on
    the record [{id: "abc"}] the storage predicate is false while the
    in-memory evaluator of the same AST is true: the two only agree on
    records that carry each attribute under its column name. *)
Lemma planner_id_pushdown_disagrees :
  let ast := Compare "id" OpEq (JStr "abc") in
  let record := [("id", JStr "abc")] in
  tryPushToDb ast USER_DB_COLUMNS = Some [("scimId", JStr "abc")] /\
  fetchAll (buildFilterResult ast USER_DB_COLUMNS) = false /\
  matchesPrismaFilter record (JObj [("scimId", JStr "abc")]) = Some false /\
  evaluateFilter ast (JObj record) = true.
Proof. vm_compute. repeat split; reflexivity. Qed.

Lemma json_eqb_true : forall a b : json, json_eqb a b = true -> a = b.
Proof.
  fix IH 1. intros a b.
  destruct a as [| |x|x|x|xs|fs], b as [| |y|y|y|ys|gs]; simpl; try discriminate; intro H;
    try reflexivity.
  - apply Bool.eqb_prop in H. subst. reflexivity.
  - apply Z.eqb_eq in H. subst. reflexivity.
  - apply String.eqb_eq in H. subst. reflexivity.
  - revert xs ys H. fix go 1. intros [|x xs'] [|y ys] H; try discriminate; [reflexivity|].
    apply andb_prop in H as [H1 H2]. apply IH in H1. subst y.
    specialize (go xs' ys H2). injection go as <-. reflexivity.
  - revert fs gs H. fix go 1. intros [|[k x] fs'] [|[k' y] gs] H; try discriminate; [reflexivity|].
    apply andb_prop in H as [H H2]. apply andb_prop in H as [H0 H1].
    apply String.eqb_eq in H0. apply IH in H1. subst k' y.
    specialize (go fs' gs H2). injection go as <-. reflexivity.
Qed.

Lemma string_compare_refl (s : string) : String.compare s s = Eq.
Proof.
  induction s as [|c s IH]; simpl; [reflexivity|].
  unfold Ascii.compare. rewrite N.compare_refl. exact IH.
Qed.

Lemma string_compare_eqb (a b : string) :
  (match String.compare a b with Eq => true | _ => false end) = String.eqb a b.
Proof.
  destruct (String.eqb_spec a b) as [->|Hne];
    [rewrite string_compare_refl; reflexivity|].
  destruct (String.compare a b) eqn:E; try reflexivity.
  apply String.compare_eq_iff in E. contradiction.
Qed.

Lemma cm_lookup_in (cm : ColumnMap) (k : string) (m : ColumnMapping) :
  cm_lookup cm k = Some m -> In (k, m) cm.
Proof.
  induction cm as [|[k' m'] cm IH]; simpl; [discriminate|].
  destruct (String.eqb_spec k' k) as [->|_]; [intro H; injection H as ->; auto|].
  intro H. right. exact (IH H).
Qed.

Lemma column_not_compound (cm : ColumnMap) (k : string) (m : ColumnMapping) :
  cm = USER_DB_COLUMNS \/ cm = GROUP_DB_COLUMNS ->
  cm_lookup cm k = Some m ->
  String.eqb (column m) "AND" = false /\ String.eqb (column m) "OR" = false.
Proof.
  intros Hcm Hl. apply cm_lookup_in in Hl.
  destruct Hcm as [->| ->]; simpl in Hl;
    repeat (destruct Hl as [E|Hl]; [injection E as _ <-; split; reflexivity|]);
    contradiction.
Qed.

Lemma prisma_single_field (fs : list (string * json)) (col : string) (cond : json) :
  String.eqb col "AND" = false -> String.eqb col "OR" = false ->
  matchesPrismaFilter fs (JObj [(col, cond)]) = Some (match_field fs col cond).
Proof.
  intros Ha Ho. simpl. rewrite Ha, Ho. destruct (match_field fs col cond); reflexivity.
Qed.

(** Each column filter, evaluated by the in-memory Prisma evaluator, agrees
    with the comparison it was built from on the value stored in the
    column. *)
Lemma column_filter_agrees (fs : list (string * json)) (col : string) (t : ColumnType)
    (op : CompareOp) (v : json) (w : Where) :
  String.eqb col "AND" = false -> String.eqb col "OR" = false ->
  literal_ok op v (obj_get fs col) = true ->
  buildColumnFilter col t op v = Some w ->
  matchesPrismaFilter fs (JObj w) = Some (compareValues op (obj_get fs col) v).
Proof.
  intros Ha Ho Hlit Hb.
  destruct op; simpl in Hb; try (destruct (is_text t); [|discriminate]);
    injection Hb as <-; rewrite prisma_single_field by assumption; f_equal;
    unfold match_field; destruct (obj_get fs col) as [| |x|x|x|xs|gs];
    destruct v as [| |y|y|y|ys|hs]; simpl in Hlit |- *; try discriminate; try reflexivity;
    try (destruct x, y; reflexivity);
    try (rewrite Z.eqb_compare; reflexivity);
    try (rewrite Z.eqb_compare; destruct (Z.compare x y); reflexivity);
    try (rewrite <- string_compare_eqb; reflexivity);
    try (rewrite <- string_compare_eqb;
         destruct (String.compare (toLowerCase x) (toLowerCase y)); reflexivity);
    unfold matchOperator; simpl;
    [rewrite Z.eqb_compare; destruct (Z.compare x y); reflexivity
    |rewrite <- string_compare_eqb;
     destruct (String.compare (toLowerCase x) (toLowerCase y)); reflexivity].
Qed.

(** C1 (code bug): the planner pushes the ordering operators on the boolean
    column [active] ([buildColumnFilter] guards only [co]/[sw]/[ew] by the
    column type), as [{active: {gt: b}}]; the Prisma evaluator never matches
    an ordering against a boolean, so on the record [{active: true}], which
    stores the attribute under its own column name, the pushed predicate is
    false while the in-memory evaluator of [active gt false] is true. *)
Theorem planner_boolean_ordering_pushdown_disagrees :
  (forall (r : list (string * json)) (b : bool),
     matchesPrismaFilter r (JObj [("active", JObj [("gt", JBool b)])]) = Some false) /\
  (tryPushToDb (Compare "active" OpGt (JBool false)) USER_DB_COLUMNS =
     Some [("active", JObj [("gt", JBool false)])]) /\
  (tryPushToDb (Compare "active" OpGt (JBool false)) GROUP_DB_COLUMNS =
     Some [("active", JObj [("gt", JBool false)])]) /\
  (fetchAll (buildFilterResult (Compare "active" OpGt (JBool false)) USER_DB_COLUMNS) = false) /\
  (obj_get [("active", JBool true)] "active" = JBool true) /\
  (matchesPrismaFilter [("active", JBool true)]
     (JObj [("active", JObj [("gt", JBool false)])]) = Some false) /\
  (evaluateFilter (Compare "active" OpGt (JBool false)) (JObj [("active", JBool true)]) = true).
Proof.
  split.
  - intros r b. rewrite prisma_single_field by reflexivity.
    unfold match_field, matchOperator, op_has, op_get, compareOrdered; simpl.
    destruct (obj_get r "active"); reflexivity.
  - vm_compute. repeat split; reflexivity.
Qed.

(** X21: for the user and group column maps, whenever the planner pushes
    an AST, the in-memory Prisma evaluator of the pushed predicate agrees
    with the in-memory evaluator of the AST on every record that exposes
    each compared, mapped attribute under its column name and whose literals
    the predicate renders faithfully (a literal that is a string, number or
    boolean; a string literal for [co]/[sw]/[ew] against a stored string; no
    ordering of two booleans). *)
Theorem planner_pushdown_agrees_on_aligned_records (cm : ColumnMap)
    (Hcm : cm = USER_DB_COLUMNS \/ cm = GROUP_DB_COLUMNS)
    (ast : FilterNode) (fs : list (string * json)) (w : Where)
    (Hpush : tryPushToDb ast cm = Some w)
    (Hal : aligned cm fs ast = true) :
  matchesPrismaFilter fs (JObj w) = Some (evaluateFilter ast (JObj fs)).
Proof.
  revert w Hpush Hal.
  induction ast as [a op v|lop l IHl r IHr|i _|a i _]; intros w Hpush Hal;
    simpl in Hpush |- *; try discriminate.
  - unfold pushCompareToDb in Hpush. simpl in Hal.
    destruct (cm_lookup cm (toLowerCase a)) as [m|] eqn:Em; [|discriminate].
    apply andb_prop in Hal as [Hres Hlit]. apply json_eqb_true in Hres.
    rewrite Hres.
    destruct (column_not_compound cm _ m Hcm Em) as [Ha Ho].
    exact (column_filter_agrees fs (column m) (ctype m) op v w Ha Ho Hlit Hpush).
  - simpl in Hal. apply andb_prop in Hal as [Hl Hr].
    destruct (tryPushToDb l cm) as [wl|]; [|destruct lop; discriminate].
    destruct (tryPushToDb r cm) as [wr|]; [|destruct lop; discriminate].
    destruct lop; simpl in Hpush; injection Hpush as <-;
      rewrite (IHl wl eq_refl Hl), (IHr wr eq_refl Hr); simpl;
      destruct (evaluateFilter l (JObj fs)), (evaluateFilter r (JObj fs)); reflexivity.
Qed.

Lemma planner_pushdown_agrees_on_aligned_records_witness :
  matchesPrismaFilter
    [("userName", JStr "BJensen"); ("displayName", JStr "Babs"); ("active", JBool true)]
    (JObj [("AND", JArr [JObj [("userName", JObj [("startsWith", JStr "bj");
                                                  ("mode", JStr "insensitive")])];
                         JObj [("active", JBool true)]])]) =
  Some (evaluateFilter
          (Logical LAnd (Compare "USERNAME" OpSw (JStr "bj")) (Compare "active" OpEq (JBool true)))
          (JObj [("userName", JStr "BJensen"); ("displayName", JStr "Babs");
                 ("active", JBool true)])).
Proof.
  apply (planner_pushdown_agrees_on_aligned_records USER_DB_COLUMNS (or_introl eq_refl)
           (Logical LAnd (Compare "USERNAME" OpSw (JStr "bj")) (Compare "active" OpEq (JBool true)))
           [("userName", JStr "BJensen"); ("displayName", JStr "Babs"); ("active", JBool true)]);
    vm_compute; reflexivity.
Defined.

(** C2: when exactly one side of an [and]/[or] node cannot be pushed, the
    whole node cannot be pushed: [tryPushToDb] returns no predicate, and the
    filter result has an empty [dbWhere], [fetchAll = true] and the
    in-memory evaluator of the whole node. *)
Theorem planner_logical_one_side_unpushable (op : LogicalOp) (l r : FilterNode)
    (cm : ColumnMap)
    (Hone : (tryPushToDb l cm = None /\ exists w, tryPushToDb r cm = Some w) \/
            ((exists w, tryPushToDb l cm = Some w) /\ tryPushToDb r cm = None)) :
  tryPushToDb (Logical op l r) cm = None /\
  dbWhere (buildFilterResult (Logical op l r) cm) = [] /\
  fetchAll (buildFilterResult (Logical op l r) cm) = true /\
  inMemoryFilter (buildFilterResult (Logical op l r) cm) =
    Some (evaluateFilter (Logical op l r)).
Proof.
  assert (Hnone : tryPushToDb (Logical op l r) cm = None).
  { simpl. destruct Hone as [[-> [w ->]] | [[w ->] ->]]; destruct op; reflexivity. }
  unfold buildFilterResult. rewrite Hnone. repeat split.
Qed.

Lemma planner_logical_one_side_unpushable_witness :
  ((tryPushToDb (Compare "userName" OpEq (JStr "bjensen")) USER_DB_COLUMNS = None /\
    exists w, tryPushToDb (Compare "emails.value" OpCo (JStr "@example.com")) USER_DB_COLUMNS
              = Some w) \/
   ((exists w, tryPushToDb (Compare "userName" OpEq (JStr "bjensen")) USER_DB_COLUMNS = Some w) /\
    tryPushToDb (Compare "emails.value" OpCo (JStr "@example.com")) USER_DB_COLUMNS = None)) /\
  tryPushToDb (Logical LAnd (Compare "userName" OpEq (JStr "bjensen"))
                 (Compare "emails.value" OpCo (JStr "@example.com"))) USER_DB_COLUMNS = None.
Proof.
  assert (H : (tryPushToDb (Compare "userName" OpEq (JStr "bjensen")) USER_DB_COLUMNS = None /\
    exists w, tryPushToDb (Compare "emails.value" OpCo (JStr "@example.com")) USER_DB_COLUMNS
              = Some w) \/
   ((exists w, tryPushToDb (Compare "userName" OpEq (JStr "bjensen")) USER_DB_COLUMNS = Some w) /\
    tryPushToDb (Compare "emails.value" OpCo (JStr "@example.com")) USER_DB_COLUMNS = None)).
  { right. split; [eexists; vm_compute; reflexivity | vm_compute; reflexivity]. }
  split; [exact H|].
  exact (proj1 (planner_logical_one_side_unpushable LAnd _ _ USER_DB_COLUMNS H)).
Defined.

(* ------------------------------------------------------------------ *)
(** ** Group PATCH engine *)

(** C10: a batch made only of [add] operations that the group engine
    accepts returns the display name, external id and raw payload of the
    input state unchanged. *)
Theorem group_add_preserves_display_fields (ops : list PatchOperation)
    (state : GroupPatchState) (config : GroupMemberPatchConfig) (res : GroupPatchResult)
    (Hadds : forallb (fun o => match supported_op (op o) with
                               | Some "add" => true | _ => false end) ops = true)
    (Hok : GroupPatchEngine.apply ops state config = Ok res) :
  r_displayName res = g_displayName state /\
  r_externalId res = g_externalId state /\
  r_payload res = g_rawPayload state.
Proof.
  unfold GroupPatchEngine.apply in Hok.
  set (st0 := {| r_displayName := g_displayName state; r_externalId := g_externalId state;
                 r_payload := g_rawPayload state; r_members := g_members state |}) in Hok.
  change (r_displayName res = r_displayName st0 /\ r_externalId res = r_externalId st0 /\
          r_payload res = r_payload st0).
  clearbody st0. revert st0 Hok.
  induction ops as [|o ops IH]; intros st Hok; simpl in Hok.
  - injection Hok as <-. auto.
  - simpl in Hadds. apply andb_prop in Hadds as [Ho Hrest].
    destruct (supported_op_cases (op o)) as [E|[E|[E|E]]]; rewrite E in Ho;
      try discriminate.
    unfold GroupPatchEngine.step in Hok. rewrite E in Hok. simpl in Hok.
    destruct (GroupPatchEngine.handleAdd o (r_members st) (allowMultiMemberAdd config))
      as [ms|e]; simpl in Hok; [|discriminate].
    exact (IH Hrest _ Hok).
Qed.

Lemma group_add_preserves_display_fields_witness :
  exists res,
    GroupPatchEngine.apply
      [{| op := Some "add"; path := Some "members"; value := JArr [JObj [("value", JStr "user-3")]] |}]
      {| g_displayName := "Engineering"; g_externalId := Some "grp-001";
         g_members := []; g_rawPayload := [("description", JStr "d")] |}
      {| allowMultiMemberAdd := true; allowMultiMemberRemove := true;
         allowRemoveAllMembers := true |} = Ok res /\
    r_displayName res = "Engineering" /\ r_externalId res = Some "grp-001" /\
    r_payload res = [("description", JStr "d")].
Proof.
  eexists. split; [vm_compute; reflexivity|].
  apply (group_add_preserves_display_fields
           [{| op := Some "add"; path := Some "members";
               value := JArr [JObj [("value", JStr "user-3")]] |}]
           {| g_displayName := "Engineering"; g_externalId := Some "grp-001";
              g_members := []; g_rawPayload := [("description", JStr "d")] |}
           {| allowMultiMemberAdd := true; allowMultiMemberRemove := true;
              allowRemoveAllMembers := true |}); vm_compute; reflexivity.
Defined.

(** C6: an [add] on the members (path [members] or no path) carrying more
    than one member, with [allowMultiMemberAdd] off, makes the whole batch
    fail with [invalidValue] once the operations before it succeeded, and
    [handleAdd] adds nothing of it to any member list. *)
Theorem group_multi_add_rejected (pre post : list PatchOperation) (o : PatchOperation)
    (state : GroupPatchState) (config : GroupMemberPatchConfig) (mid : GroupPatchResult)
    (xs : list json)
    (Hcfg : allowMultiMemberAdd config = false)
    (Hop : supported_op (op o) = Some "add")
    (Hpath : no_path (lower_path (path o)) || path_is (lower_path (path o)) "members" = true)
    (Hval : value o = JArr xs)
    (Hlen : (1 < length xs)%nat)
    (Hpre : GroupPatchEngine.apply pre state config = Ok mid) :
  GroupPatchEngine.apply (pre ++ o :: post) state config = Err (err400 invalidValue) /\
  (forall members, GroupPatchEngine.handleAdd o members false = Err (err400 invalidValue)).
Proof.
  assert (Hadd : forall members,
             GroupPatchEngine.handleAdd o members false = Err (err400 invalidValue)).
  { intro members. unfold GroupPatchEngine.handleAdd.
    destruct (no_path (lower_path (path o))); simpl in Hpath |- *.
    - rewrite Hval. destruct xs as [|x [|y xs]]; simpl in Hlen |- *; try lia. reflexivity.
    - rewrite Hpath. simpl. rewrite Hval.
      destruct xs as [|x [|y xs]]; simpl in Hlen |- *; try lia. reflexivity. }
  split; [|exact Hadd].
  unfold GroupPatchEngine.apply in *. rewrite group_run_app, Hpre. simpl.
  unfold GroupPatchEngine.step. rewrite Hop. simpl. rewrite Hcfg, Hadd. reflexivity.
Qed.

Lemma group_multi_add_rejected_witness :
  GroupPatchEngine.apply
    [{| op := Some "add"; path := Some "members";
        value := JArr [JObj [("value", JStr "u1")]; JObj [("value", JStr "u2")]] |}]
    {| g_displayName := "Engineering"; g_externalId := Some "grp-001";
       g_members := [{| m_value := JStr "user-1"; m_display := JStr "User user-1";
                        m_type := JUndef |}];
       g_rawPayload := [] |}
    {| allowMultiMemberAdd := false; allowMultiMemberRemove := false;
       allowRemoveAllMembers := false |} = Err (err400 invalidValue).
Proof.
  apply (group_multi_add_rejected []
           []
           {| op := Some "add"; path := Some "members";
              value := JArr [JObj [("value", JStr "u1")]; JObj [("value", JStr "u2")]] |}
           {| g_displayName := "Engineering"; g_externalId := Some "grp-001";
              g_members := [{| m_value := JStr "user-1"; m_display := JStr "User user-1";
                               m_type := JUndef |}];
              g_rawPayload := [] |}
           {| allowMultiMemberAdd := false; allowMultiMemberRemove := false;
              allowRemoveAllMembers := false |}
           {| r_displayName := "Engineering"; r_externalId := Some "grp-001";
              r_payload := [];
              r_members := [{| m_value := JStr "user-1"; m_display := JStr "User user-1";
                               m_type := JUndef |}] |}
           [JObj [("value", JStr "u1")]; JObj [("value", JStr "u2")]]);
    vm_compute; reflexivity.
Defined.

(** C5 (code bug): a [remove] whose value is a non-empty array of members
    is accepted whatever its path, unknown paths included (within the
    multi-member-remove flag): the value array is handled before the path
    is looked at, so the unknown path never yields [invalidPath]. *)
Theorem group_remove_with_values_ignores_path (o : PatchOperation)
    (state : GroupPatchState) (config : GroupMemberPatchConfig) (x : json) (xs : list json)
    (Hop : supported_op (op o) = Some "remove")
    (Hval : value o = JArr (x :: xs))
    (Hflag : allowMultiMemberRemove config || (length xs =? 0)%nat = true) :
  exists res, GroupPatchEngine.apply [o] state config = Ok res.
Proof.
  unfold GroupPatchEngine.apply. simpl. unfold GroupPatchEngine.step. rewrite Hop. simpl.
  unfold GroupPatchEngine.handleRemove. rewrite Hval.
  destruct (allowMultiMemberRemove config); simpl.
  - eexists. reflexivity.
  - destruct xs; simpl in Hflag |- *; [eexists; reflexivity | discriminate].
Qed.

Lemma group_remove_with_values_ignores_path_witness :
  exists res,
    GroupPatchEngine.apply
      [{| op := Some "remove"; path := Some "title";
          value := JArr [JObj [("value", JStr "user-1")]] |}]
      {| g_displayName := "Engineering"; g_externalId := Some "grp-001";
         g_members := [{| m_value := JStr "user-1"; m_display := JStr "User user-1";
                          m_type := JUndef |};
                       {| m_value := JStr "user-2"; m_display := JStr "User user-2";
                          m_type := JUndef |}];
         g_rawPayload := [] |}
      {| allowMultiMemberAdd := false; allowMultiMemberRemove := false;
         allowRemoveAllMembers := false |} = Ok res.
Proof.
  apply (group_remove_with_values_ignores_path
           {| op := Some "remove"; path := Some "title";
              value := JArr [JObj [("value", JStr "user-1")]] |}
           {| g_displayName := "Engineering"; g_externalId := Some "grp-001";
              g_members := [{| m_value := JStr "user-1"; m_display := JStr "User user-1";
                               m_type := JUndef |};
                            {| m_value := JStr "user-2"; m_display := JStr "User user-2";
                               m_type := JUndef |}];
              g_rawPayload := [] |}
           {| allowMultiMemberAdd := false; allowMultiMemberRemove := false;
              allowRemoveAllMembers := false |}
           (JObj [("value", JStr "user-1")]) []); vm_compute; reflexivity.
Defined.

(** *** Membership lemmas for C4 *)

Lemma sv_sym (a b : json) : same_value_zero a b = same_value_zero b a.
Proof.
  unfold same_value_zero, strict_eq. destruct a, b; try reflexivity.
  - destruct b, b0; reflexivity.
  - apply Z.eqb_sym.
  - apply String.eqb_sym.
Qed.

Lemma sv_eq (a b : json) : same_value_zero a b = true -> a = b.
Proof.
  unfold same_value_zero, strict_eq.
  destruct a, b; try discriminate; intro H; try reflexivity.
  - apply Bool.eqb_prop in H. subst. reflexivity.
  - apply Z.eqb_eq in H. subst. reflexivity.
  - apply String.eqb_eq in H. subst. reflexivity.
Qed.

Lemma sv_refl_of (a b : json) : same_value_zero a b = true -> same_value_zero b b = true.
Proof. intro H. pose proof (sv_eq _ _ H) as E. subst. exact H. Qed.

Lemma last_member_app (v : json) (A B : list GroupMemberDto) :
  last_member v (A ++ B) =
  match last_member v B with Some x => Some x | None => last_member v A end.
Proof.
  induction A as [|a A IH]; simpl.
  - destruct (last_member v B); reflexivity.
  - rewrite IH. destruct (last_member v B); reflexivity.
Qed.

Lemma last_supplied_app (v : json) (A B : list json) :
  last_supplied v (A ++ B) =
  match last_supplied v B with Some x => Some x | None => last_supplied v A end.
Proof.
  induction A as [|a A IH]; simpl.
  - destruct (last_supplied v B); reflexivity.
  - rewrite IH. destruct (last_supplied v B); reflexivity.
Qed.

Lemma last_member_self_none (v : json) (P : list GroupMemberDto) :
  same_value_zero v v = false -> last_member v P = None.
Proof.
  intro Hv. induction P as [|p P IH]; simpl; [reflexivity|]. rewrite IH.
  destruct (same_value_zero (m_value p) v) eqn:E; [|reflexivity].
  apply sv_refl_of in E. congruence.
Qed.

Lemma last_member_in (m : GroupMemberDto) (v : json) (P : list GroupMemberDto) :
  In m P -> same_value_zero (m_value m) v = true -> last_member v P <> None.
Proof.
  induction P as [|p P IH]; simpl; [contradiction|]. intros Hin E.
  destruct Hin as [->|Hin].
  - destruct (last_member v P); [discriminate|]. rewrite E. discriminate.
  - specialize (IH Hin E). destruct (last_member v P); [discriminate|contradiction].
Qed.

Lemma last_supplied_match (v e : json) (es : list json) :
  last_supplied v es = Some e -> same_value_zero (prop e "value") v = true.
Proof.
  induction es as [|a es IH]; simpl; [discriminate|].
  destruct (last_supplied v es); [exact IH|].
  destruct (same_value_zero (prop a "value") v) eqn:E; intro H; [|discriminate].
  injection H as <-. exact E.
Qed.

Lemma toMemberDto_value (e : json) (d : GroupMemberDto) :
  GroupPatchEngine.toMemberDto e = Ok d -> m_value d = prop e "value".
Proof.
  destruct e; simpl; try discriminate.
  destruct (obj_has fs "value"); intro H; [injection H as <-; reflexivity|discriminate].
Qed.

Lemma toMemberDtos_last (v : json) (es : list json) (ds : list GroupMemberDto) :
  GroupPatchEngine.toMemberDtos es = Ok ds ->
  match last_supplied v es, last_member v ds with
  | None, None => True
  | Some e, Some d => GroupPatchEngine.toMemberDto e = Ok d
  | _, _ => False
  end.
Proof.
  revert ds. induction es as [|a es IH]; intros ds; simpl.
  - intro H. injection H as <-. exact I.
  - destruct (GroupPatchEngine.toMemberDto a) as [d|] eqn:Ea; simpl; [|discriminate].
    destruct (GroupPatchEngine.toMemberDtos es) as [ds'|] eqn:Ees; simpl; [|discriminate].
    intro H. injection H as <-. specialize (IH ds' eq_refl). simpl.
    destruct (last_supplied v es), (last_member v ds'); try contradiction; [exact IH|].
    rewrite (toMemberDto_value _ _ Ea).
    destruct (same_value_zero (prop a "value") v); [exact Ea|exact I].
Qed.

Lemma map_set_in (S : list (json * GroupMemberDto)) (k : json) (m : GroupMemberDto)
    (k' : json) (m' : GroupMemberDto) :
  keys_unique S -> In (k', m') (map_set S k m) ->
  (k' = k /\ m' = m) \/ (In (k', m') S /\ same_value_zero k' k = false).
Proof.
  induction S as [|[k0 m0] S IH]; simpl; intros U H.
  - destruct H as [E|[]]. injection E as <- <-. auto.
  - destruct U as [U0 U]. destruct (same_value_zero k0 k) eqn:E.
    + apply sv_eq in E. subst k0. destruct H as [E'|H].
      * injection E' as <- <-. auto.
      * right. split; [right; exact H | exact (U0 _ _ H)].
    + destruct H as [E'|H].
      * injection E' as <- <-. right. split; [left; reflexivity | exact E].
      * destruct (IH U H) as [[-> ->]|[Hin Hs]]; [left; auto|].
        right. split; [right; exact Hin | exact Hs].
Qed.

Lemma map_set_unique (S : list (json * GroupMemberDto)) (k : json) (m : GroupMemberDto) :
  keys_unique S -> keys_unique (map_set S k m).
Proof.
  induction S as [|[k0 m0] S IH]; simpl; intros U.
  - split; [intros k' m' []|exact I].
  - destruct U as [U0 U]. destruct (same_value_zero k0 k) eqn:E; simpl.
    + split; [exact U0|exact U].
    + split; [|exact (IH U)]. intros k' m' H.
      destruct (map_set_in S k m k' m' U H) as [[-> _]|[Hin _]];
        [rewrite sv_sym; exact E | exact (U0 _ _ Hin)].
Qed.

Lemma ensure_fold_inv (xs : list GroupMemberDto) :
  forall (S : list (json * GroupMemberDto)) (P : list GroupMemberDto),
  (forall k m, In (k, m) S -> k = m_value m) ->
  keys_unique S ->
  (forall k m, In (k, m) S -> In m P /\ forall d, last_member k P = Some d -> d = m) ->
  let S' := fold_left (fun seen m => map_set seen (m_value m) m) xs S in
  (forall k m, In (k, m) S' -> k = m_value m) /\ keys_unique S' /\
  (forall k m, In (k, m) S' -> In m (P ++ xs) /\
                               forall d, last_member k (P ++ xs) = Some d -> d = m).
Proof.
  induction xs as [|x xs IH]; intros S P Hk U Hl; simpl.
  - rewrite app_nil_r. auto.
  - replace (P ++ x :: xs) with ((P ++ [x]) ++ xs) by (rewrite <- app_assoc; reflexivity).
    apply IH.
    + intros k m H. destruct (map_set_in S _ _ _ _ U H) as [[-> ->]|[Hin _]];
        [reflexivity | exact (Hk _ _ Hin)].
    + apply map_set_unique. exact U.
    + intros k m H. rewrite last_member_app. simpl.
      destruct (map_set_in S _ _ _ _ U H) as [[-> ->]|[Hin Hs]].
      * split; [apply in_or_app; right; left; reflexivity|].
        destruct (same_value_zero (m_value x) (m_value x)) eqn:E.
        -- intros d Hd. injection Hd as <-. reflexivity.
        -- rewrite (last_member_self_none _ P E). discriminate.
      * destruct (Hl _ _ Hin) as [HinP Hlast].
        split; [apply in_or_app; left; exact HinP|].
        rewrite sv_sym in Hs. rewrite Hs. exact Hlast.
Qed.

Lemma unique_of_keys (S : list (json * GroupMemberDto)) :
  (forall k m, In (k, m) S -> k = m_value m) -> keys_unique S ->
  unique_values (map snd S) = true.
Proof.
  induction S as [|[k0 m0] S IH]; simpl; intros Hk U; [reflexivity|].
  destruct U as [U0 U].
  rewrite (IH (fun k m H => Hk k m (or_intror H)) U), andb_true_r.
  apply negb_true_iff. apply not_true_iff_false. intro Hex.
  apply existsb_exists in Hex as [m' [Hin Hsv]].
  apply in_map_iff in Hin as [[k' m''] [Em Hin]]. simpl in Em. subst m''.
  rewrite <- (Hk _ _ (or_intror Hin)), <- (Hk _ _ (or_introl eq_refl)) in Hsv.
  rewrite (U0 _ _ Hin) in Hsv. discriminate.
Qed.

Lemma ensureUnique_props (xs : list GroupMemberDto) :
  unique_values (GroupPatchEngine.ensureUniqueMembers xs) = true /\
  forall m, In m (GroupPatchEngine.ensureUniqueMembers xs) ->
    In m xs /\ forall d, last_member (m_value m) xs = Some d -> d = m.
Proof.
  destruct (ensure_fold_inv xs [] [] (fun _ _ H => match H with end) I
              (fun _ _ H => match H with end)) as [Hk [U Hl]].
  unfold GroupPatchEngine.ensureUniqueMembers. split.
  - exact (unique_of_keys _ Hk U).
  - intros m Hin. apply in_map_iff in Hin as [[k m'] [Em Hin]]. simpl in Em. subst m'.
    rewrite <- (Hk _ _ Hin). exact (Hl _ _ Hin).
Qed.

Lemma members_step_last (ms ds : list GroupMemberDto) (sup vals : list json) :
  (forall m, In m ms -> forall e, last_supplied (m_value m) sup = Some e ->
                                  GroupPatchEngine.toMemberDto e = Ok m) ->
  GroupPatchEngine.toMemberDtos vals = Ok ds ->
  forall m, In m (GroupPatchEngine.ensureUniqueMembers (ms ++ ds)) ->
  forall e, last_supplied (m_value m) (sup ++ vals) = Some e ->
            GroupPatchEngine.toMemberDto e = Ok m.
Proof.
  intros Hold Hds m Hin e He.
  destruct (proj2 (ensureUnique_props (ms ++ ds)) m Hin) as [Hin' Hlast].
  pose proof (toMemberDtos_last (m_value m) vals ds Hds) as Hl.
  rewrite last_supplied_app in He.
  destruct (last_supplied (m_value m) vals) as [e'|] eqn:Ev.
  - injection He as <-. destruct (last_member (m_value m) ds) as [d|] eqn:Ed; [|contradiction].
    assert (d = m) as <- by (apply Hlast; rewrite last_member_app, Ed; reflexivity).
    exact Hl.
  - destruct (last_member (m_value m) ds) eqn:Ed; [contradiction|].
    apply in_app_or in Hin' as [Hms|Hds'].
    + exact (Hold m Hms e He).
    + exfalso. apply (last_member_in m (m_value m) ds Hds'); [|exact Ed].
      exact (sv_refl_of _ _ (last_supplied_match _ _ _ He)).
Qed.

Lemma handleAdd_members (o : PatchOperation) (ms ms' : list GroupMemberDto) (f : bool) :
  GroupPatchEngine.handleAdd o ms f = Ok ms' ->
  exists ds, GroupPatchEngine.toMemberDtos
               (match value o with JArr xs => xs | v => [v] end) = Ok ds /\
             ms' = GroupPatchEngine.ensureUniqueMembers (ms ++ ds).
Proof.
  unfold GroupPatchEngine.handleAdd. cbv zeta.
  destruct (negb (no_path (lower_path (path o))) && negb (path_is (lower_path (path o)) "members"));
    [discriminate|].
  destruct (falsy (value o)); [discriminate|].
  destruct (negb f && _); [discriminate|].
  destruct (GroupPatchEngine.toMemberDtos _) as [ds|e]; simpl; [|discriminate].
  intro H. injection H as <-. eauto.
Qed.

Lemma path_is_true (p : option string) (s : string) : path_is p s = true -> p = Some s.
Proof.
  destruct p as [q|]; simpl; [|discriminate]. intro H. apply String.eqb_eq in H. subst. reflexivity.
Qed.

Lemma handleReplace_members (o : PatchOperation) (dn : string) (ext : option string)
    (ms : list GroupMemberDto) (raw : list (string * json)) (dn' : string)
    (ext' : option string) (ms' : list GroupMemberDto) (raw' : list (string * json)) :
  supported_op (op o) = Some "replace" ->
  GroupPatchEngine.handleReplace o dn ext ms raw = Ok (dn', ext', ms', raw') ->
  (ms' = ms /\ supplied_members o = []) \/
  (exists ds, GroupPatchEngine.toMemberDtos (supplied_members o) = Ok ds /\
              ms' = GroupPatchEngine.ensureUniqueMembers ds).
Proof.
  intros Hop. unfold supplied_members. rewrite Hop. unfold GroupPatchEngine.handleReplace.
  cbv zeta. simpl.
  destruct (no_path (lower_path (path o))) eqn:E1.
  - destruct (value o) eqn:Ev; try discriminate.
    + intro H. injection H as _ _ <- _. auto.
    + intro H. injection H as _ _ <- _. left. split; reflexivity.
    + simpl. destruct (obj_get fs "members") eqn:Ep;
        try (intro H; injection H as _ _ <- _; auto).
      destruct (GroupPatchEngine.toMemberDtos xs) as [ds|e]; simpl; [|discriminate].
      intro H. injection H as _ _ <- _. eauto.
  - destruct (path_is (lower_path (path o)) "displayname") eqn:E2.
    + rewrite (path_is_true _ _ E2). simpl.
      destruct (value o); try discriminate. intro H. injection H as _ _ <- _. auto.
    + destruct (path_is (lower_path (path o)) "externalid") eqn:E3.
      * rewrite (path_is_true _ _ E3). simpl. intro H. injection H as _ _ <- _. auto.
      * destruct (path_is (lower_path (path o)) "members"); [|discriminate].
        destruct (value o); try discriminate.
        destruct (GroupPatchEngine.toMemberDtos xs) as [ds|e]; simpl; [|discriminate].
        intro H. injection H as _ _ <- _. eauto.
Qed.

Lemma group_run_members_inv (config : GroupMemberPatchConfig) (ops : list PatchOperation) :
  forall (st res : GroupPatchResult) (sup : list json),
  forallb is_add_or_replace ops = true ->
  unique_values (r_members st) = true ->
  (forall m, In m (r_members st) -> forall e, last_supplied (m_value m) sup = Some e ->
                                            GroupPatchEngine.toMemberDto e = Ok m) ->
  GroupPatchEngine.run config st ops = Ok res ->
  unique_values (r_members res) = true /\
  (forall m, In m (r_members res) ->
     forall e, last_supplied (m_value m) (sup ++ flat_map supplied_members ops) = Some e ->
               GroupPatchEngine.toMemberDto e = Ok m).
Proof.
  induction ops as [|o ops IH]; intros st res sup Hops Hu Hl Hrun; simpl in Hrun.
  - injection Hrun as <-. rewrite app_nil_r. auto.
  - simpl in Hops. apply andb_prop in Hops as [Ho Hrest]. simpl.
    rewrite app_assoc.
    unfold is_add_or_replace in Ho. unfold GroupPatchEngine.step in Hrun.
    destruct (supported_op_cases (op o)) as [E|[E|[E|E]]]; rewrite E in Ho, Hrun;
      try discriminate.
    + simpl in Hrun.
      destruct (GroupPatchEngine.handleAdd o (r_members st) (allowMultiMemberAdd config))
        as [ms|e] eqn:Ha; simpl in Hrun; [|discriminate].
      destruct (handleAdd_members _ _ _ _ Ha) as [ds [Hds ->]].
      refine (IH _ _ _ Hrest _ _ Hrun); simpl.
      * exact (proj1 (ensureUnique_props _)).
      * apply (members_step_last (r_members st) ds sup); [exact Hl|].
        unfold supplied_members. rewrite E. exact Hds.
    + simpl in Hrun.
      destruct (GroupPatchEngine.handleReplace o (r_displayName st) (r_externalId st)
                  (r_members st) (r_payload st)) as [[[[dn ext] ms] raw]|e] eqn:Hr;
        [|discriminate].
      refine (IH _ _ _ Hrest _ _ Hrun); simpl.
      * destruct (handleReplace_members _ _ _ _ _ _ _ _ _ E Hr) as [[-> _]|[ds [_ ->]]];
          [exact Hu | exact (proj1 (ensureUnique_props _))].
      * destruct (handleReplace_members _ _ _ _ _ _ _ _ _ E Hr) as [[-> Hs]|[ds [Hds ->]]].
        -- rewrite Hs, app_nil_r. exact Hl.
        -- exact (members_step_last [] ds sup _ (fun m H => match H with end) Hds).
Qed.

(** C4 (counterexample): the engine does not deduplicate the members it
    is given.  A state holding [user-1] twice, patched with a single
    [replace] of [displayName], is accepted and still holds [user-1]
    twice: the uniqueness of [value]s is preserved by add and replace, not
    established for every input state. *)
Lemma group_duplicate_input_members_survive :
  forallb is_add_or_replace
    [{| op := Some "replace"; path := Some "displayName"; value := JStr "Sales" |}] = true /\
  GroupPatchEngine.apply
    [{| op := Some "replace"; path := Some "displayName"; value := JStr "Sales" |}]
    {| g_displayName := "Engineering"; g_externalId := Some "grp-001";
       g_members := [{| m_value := JStr "user-1"; m_display := JStr "User user-1";
                        m_type := JUndef |};
                     {| m_value := JStr "user-1"; m_display := JStr "User user-1";
                        m_type := JUndef |}];
       g_rawPayload := [] |}
    {| allowMultiMemberAdd := true; allowMultiMemberRemove := true;
       allowRemoveAllMembers := true |} =
  Ok {| r_displayName := "Sales"; r_externalId := Some "grp-001"; r_payload := [];
        r_members := [{| m_value := JStr "user-1"; m_display := JStr "User user-1";
                         m_type := JUndef |};
                      {| m_value := JStr "user-1"; m_display := JStr "User user-1";
                         m_type := JUndef |}] |} /\
  unique_values [{| m_value := JStr "user-1"; m_display := JStr "User user-1";
                    m_type := JUndef |};
                 {| m_value := JStr "user-1"; m_display := JStr "User user-1";
                    m_type := JUndef |}] = false.
Proof. vm_compute. repeat split. Qed.

(** C4 (amended): for a group state whose members have pairwise distinct
    [value]s and a batch of [add]/[replace] operations that
    [GroupPatchEngine.apply] accepts, the returned members still have
    pairwise distinct [value]s, and every returned member whose [value] was
    supplied by the batch is exactly the member built from the last
    supplied entry with that [value] (its display and type win). *)
Theorem group_members_unique_last_wins (ops : list PatchOperation)
    (state : GroupPatchState) (config : GroupMemberPatchConfig) (res : GroupPatchResult)
    (Hops : forallb is_add_or_replace ops = true)
    (Huniq : unique_values (g_members state) = true)
    (Hok : GroupPatchEngine.apply ops state config = Ok res) :
  unique_values (r_members res) = true /\
  (forall m, In m (r_members res) ->
     forall e, last_supplied (m_value m) (flat_map supplied_members ops) = Some e ->
               GroupPatchEngine.toMemberDto e = Ok m).
Proof.
  unfold GroupPatchEngine.apply in Hok.
  exact (group_run_members_inv config ops
           {| r_displayName := g_displayName state; r_externalId := g_externalId state;
              r_payload := g_rawPayload state; r_members := g_members state |} res [] Hops Huniq
           (fun m _ e He => ltac:(discriminate He)) Hok).
Qed.

Lemma group_members_unique_last_wins_witness :
  unique_values
    [{| m_value := JStr "user-1"; m_display := JStr "User user-1"; m_type := JUndef |};
     {| m_value := JStr "user-2"; m_display := JStr "User user-2"; m_type := JUndef |}] = true /\
  GroupPatchEngine.apply
    [{| op := Some "add"; path := Some "members";
        value := JArr [JObj [("value", JStr "user-3"); ("display", JStr "First")];
                       JObj [("value", JStr "user-3"); ("display", JStr "Second")]] |}]
    {| g_displayName := "Engineering"; g_externalId := Some "grp-001";
       g_members := [{| m_value := JStr "user-1"; m_display := JStr "User user-1";
                        m_type := JUndef |};
                     {| m_value := JStr "user-2"; m_display := JStr "User user-2";
                        m_type := JUndef |}];
       g_rawPayload := [] |}
    {| allowMultiMemberAdd := true; allowMultiMemberRemove := true;
       allowRemoveAllMembers := true |} =
  Ok {| r_displayName := "Engineering"; r_externalId := Some "grp-001"; r_payload := [];
        r_members := [{| m_value := JStr "user-1"; m_display := JStr "User user-1";
                         m_type := JUndef |};
                      {| m_value := JStr "user-2"; m_display := JStr "User user-2";
                         m_type := JUndef |};
                      {| m_value := JStr "user-3"; m_display := JStr "Second";
                         m_type := JUndef |}] |} /\
  unique_values
    [{| m_value := JStr "user-1"; m_display := JStr "User user-1"; m_type := JUndef |};
     {| m_value := JStr "user-2"; m_display := JStr "User user-2"; m_type := JUndef |};
     {| m_value := JStr "user-3"; m_display := JStr "Second"; m_type := JUndef |}] = true /\
  GroupPatchEngine.toMemberDto
    (JObj [("value", JStr "user-3"); ("display", JStr "Second")]) =
  Ok {| m_value := JStr "user-3"; m_display := JStr "Second"; m_type := JUndef |}.
Proof.
  assert (Hok :
    GroupPatchEngine.apply
      [{| op := Some "add"; path := Some "members";
          value := JArr [JObj [("value", JStr "user-3"); ("display", JStr "First")];
                         JObj [("value", JStr "user-3"); ("display", JStr "Second")]] |}]
      {| g_displayName := "Engineering"; g_externalId := Some "grp-001";
         g_members := [{| m_value := JStr "user-1"; m_display := JStr "User user-1";
                          m_type := JUndef |};
                       {| m_value := JStr "user-2"; m_display := JStr "User user-2";
                          m_type := JUndef |}];
         g_rawPayload := [] |}
      {| allowMultiMemberAdd := true; allowMultiMemberRemove := true;
         allowRemoveAllMembers := true |} =
    Ok {| r_displayName := "Engineering"; r_externalId := Some "grp-001"; r_payload := [];
          r_members := [{| m_value := JStr "user-1"; m_display := JStr "User user-1";
                           m_type := JUndef |};
                        {| m_value := JStr "user-2"; m_display := JStr "User user-2";
                           m_type := JUndef |};
                        {| m_value := JStr "user-3"; m_display := JStr "Second";
                           m_type := JUndef |}] |}) by (vm_compute; reflexivity).
  pose proof (fun H1 H2 => group_members_unique_last_wins _ _ _ _ H1 H2 Hok) as T.
  destruct (T eq_refl eq_refl) as [Hu Hl].
  split; [reflexivity|]. split; [exact Hok|]. split; [exact Hu|].
  apply Hl; [simpl; auto | vm_compute; reflexivity].
Defined.

(* ------------------------------------------------------------------ *)
(** ** User PATCH engine *)

(** C3 (code bug): the user engine copies [state.rawPayload] shallowly and
    [applyDotNotation] writes into the nested object in place.  With
    verbose dot-notation on, the batch [replace name.givenName = B] then an
    unsupported [bogus] operation throws [invalidValue], yet the caller's
    [rawPayload.name.givenName] has become [B]. *)
Theorem user_failed_batch_mutates_nested_input :
  let h0 : heap := fun l => match l with O => [("givenName", JStr "A")] | _ => [] end in
  let state := {| u_userName := "bjensen"; u_displayName := None; u_externalId := None;
                  u_active := true; u_rawPayload := [("name", SRef O)] |} in
  let ops := [{| op := Some "replace"; path := Some "name.givenName"; value := JStr "B" |};
              {| op := Some "bogus"; path := None; value := JUndef |}] in
  let '(r, h1) := UserPatchEngine.apply ops state {| verbosePatch := true |} h0 in
  r = Err (err400 invalidValue) /\
  deref_payload h0 (u_rawPayload state) = [("name", JObj [("givenName", JStr "A")])] /\
  deref_payload h1 (u_rawPayload state) = [("name", JObj [("givenName", JStr "B")])].
Proof. vm_compute. repeat split. Qed.

(** C8: whatever the operations wrote, a successful user PATCH returns a
    payload with no key equal, case-insensitively, to [id], [userName],
    [externalId] or [active]. *)
Theorem user_payload_has_no_server_managed_keys (ops : list PatchOperation)
    (state : UserPatchState) (config : PatchConfig) (h h' : heap) (res : UserPatchResult)
    (Hok : UserPatchEngine.apply ops state config h = (Ok res, h')) :
  forallb (fun '(k, _) => negb (existsb (String.eqb (toLowerCase k)) SERVER_MANAGED))
          (payload res) = true.
Proof.
  unfold UserPatchEngine.apply, bindM in Hok.
  destruct (UserPatchEngine.run _ _ ops h) as [[st|e] h1]; [|discriminate].
  unfold ret in Hok. injection Hok as <- _. simpl.
  apply forallb_forall. intros [k s] Hin.
  apply filter_In in Hin as [_ Hr].
  unfold is_reserved in Hr. apply negb_true_iff, orb_false_iff in Hr as [_ Hr].
  apply negb_true_iff. apply not_true_iff_false. intro Hman.
  repeat (apply orb_true_iff in Hman as [Hman|Hman];
          [apply String.eqb_eq in Hman; rewrite Hman in Hr; vm_compute in Hr; discriminate|]).
  discriminate.
Qed.

Lemma user_payload_has_no_server_managed_keys_witness :
  forallb (fun '(k, _) => negb (existsb (String.eqb (toLowerCase k)) SERVER_MANAGED))
    (payload {| payload := [("nickName", SVal (JStr "bj"))];
                extractedFields := {| f_userName := "bjensen"; f_displayName := None;
                                      f_externalId := None; f_active := true |} |}) = true.
Proof.
  apply (user_payload_has_no_server_managed_keys
           [{| op := Some "add"; path := None;
               value := JObj [("ACTIVE", JStr "true"); ("nickname", JStr "bj");
                              ("Id", JStr "x")] |}]
           {| u_userName := "bjensen"; u_displayName := None; u_externalId := None;
              u_active := false; u_rawPayload := [("id", SVal (JStr "old"))] |}
           {| verbosePatch := false |} (fun _ => []) (fun _ => [])).
  vm_compute. reflexivity.
Defined.

(** C7: an [add] or [replace] on [active] (any letter case) succeeds exactly
    on the boolean-like values of the spec (a boolean, a case-insensitive
    [true]/[false] string, or an object whose [active] is one of those),
    setting [active] to the value they denote, and fails with
    [invalidValue] on every other value; [replace active = False] yields
    [active = false]. *)
Theorem user_active_coercion :
  (forall (o : PatchOperation) (state : UserPatchState) (config : PatchConfig) (h : heap),
     is_add_or_replace o = true ->
     lower_path (path o) = Some "active" ->
     fst (UserPatchEngine.apply [o] state config h) =
       match spec_bool_like (value o) with
       | Some b =>
           Ok {| payload := UserPatchEngine.stripReservedAttributes
                              (obj_set (u_rawPayload state) "active" (SVal (JBool b)));
                 extractedFields := with_active (user_fields_of state) b |}
       | None => Err (err400 invalidValue)
       end) /\
  (forall (state : UserPatchState) (config : PatchConfig) (h : heap),
     exists res,
       fst (UserPatchEngine.apply
              [{| op := Some "replace"; path := Some "active"; value := JStr "False" |}]
              state config h) = Ok res /\
       f_active (extractedFields res) = false).
Proof.
  assert (Hgen : forall (o : PatchOperation) (state : UserPatchState) (config : PatchConfig)
                        (h : heap),
     is_add_or_replace o = true ->
     lower_path (path o) = Some "active" ->
     fst (UserPatchEngine.apply [o] state config h) =
       match spec_bool_like (value o) with
       | Some b =>
           Ok {| payload := UserPatchEngine.stripReservedAttributes
                              (obj_set (u_rawPayload state) "active" (SVal (JBool b)));
                 extractedFields := with_active (user_fields_of state) b |}
       | None => Err (err400 invalidValue)
       end).
  { intros o state config h Hop Hpath.
    unfold is_add_or_replace in Hop.
    unfold UserPatchEngine.apply, UserPatchEngine.run, UserPatchEngine.step, bindM.
    destruct (supported_op_cases (op o)) as [E|[E|[E|E]]]; rewrite E in Hop |- *;
      try discriminate;
      unfold UserPatchEngine.applyAddOrReplace; rewrite Hpath; simpl;
      unfold lift, bindM; rewrite extractBooleanValue_spec;
      destruct (spec_bool_like (value o)); reflexivity. }
  split; [exact Hgen|].
  intros state config h.
  rewrite (Hgen {| op := Some "replace"; path := Some "active"; value := JStr "False" |}
             state config h eq_refl eq_refl). simpl.
  eexists. split; reflexivity.
Qed.

Lemma user_active_coercion_witness :
  fst (UserPatchEngine.apply
         [{| op := Some "Replace"; path := Some "ACTIVE";
             value := JObj [("active", JStr "TRUE")] |}]
         {| u_userName := "bjensen"; u_displayName := None; u_externalId := None;
            u_active := false; u_rawPayload := [] |}
         {| verbosePatch := false |} (fun _ => [])) =
  Ok {| payload := [];
        extractedFields := {| f_userName := "bjensen"; f_displayName := None;
                              f_externalId := None; f_active := true |} |}.
Proof.
  rewrite (proj1 user_active_coercion
             {| op := Some "Replace"; path := Some "ACTIVE";
                value := JObj [("active", JStr "TRUE")] |}
             {| u_userName := "bjensen"; u_displayName := None; u_externalId := None;
                u_active := false; u_rawPayload := [] |}
             {| verbosePatch := false |} (fun _ => []) eq_refl eq_refl).
  vm_compute. reflexivity.
Defined.

(* ------------------------------------------------------------------ *)
(** ** Idempotence of [replace] *)

(** *** Writes into objects *)

Lemma obj_set_idem {A} (fs : list (string * A)) (k : string) (v : A) :
  obj_set (obj_set fs k v) k v = obj_set fs k v.
Proof.
  induction fs as [|[k' v'] fs IH]; simpl.
  - rewrite String.eqb_refl. reflexivity.
  - destruct (String.eqb k' k) eqn:E; simpl; rewrite E; [reflexivity|].
    rewrite IH. reflexivity.
Qed.

Lemma obj_set_at {A} (pre post : list (string * A)) (k : string) (x v : A) :
  ~ In k (map fst pre) ->
  obj_set (pre ++ (k, x) :: post) k v = pre ++ (k, v) :: post.
Proof.
  induction pre as [|[k' v'] pre IH]; simpl; intro Hn.
  - rewrite String.eqb_refl. reflexivity.
  - destruct (String.eqb k' k) eqn:E.
    + apply String.eqb_eq in E. subst. exfalso. apply Hn. left. reflexivity.
    + rewrite IH; [reflexivity|]. intro H. apply Hn. right. exact H.
Qed.

Lemma obj_set_split {A} (pre rest : list (string * A)) (k : string) (v : A) :
  obj_set (pre ++ rest) k v =
  if existsb (fun p => String.eqb (fst p) k) pre then obj_set pre k v ++ rest
  else pre ++ obj_set rest k v.
Proof.
  induction pre as [|[k' v'] pre IH]; simpl; [reflexivity|].
  destruct (String.eqb k' k); simpl; [reflexivity|]. rewrite IH.
  destruct (existsb _ pre); reflexivity.
Qed.

Lemma obj_set_keys {A} (fs : list (string * A)) (k : string) (v : A) :
  existsb (fun p => String.eqb (fst p) k) fs = true ->
  map fst (obj_set fs k v) = map fst fs.
Proof.
  induction fs as [|[k' v'] fs IH]; simpl; [discriminate|].
  destruct (String.eqb k' k) eqn:E; simpl; [reflexivity|]. intro H. rewrite IH; auto.
Qed.

Lemma obj_set_decomp {A} (y : list (string * A)) (k : string) (v : A) :
  exists pre post, obj_set y k v = pre ++ (k, v) :: post /\ ~ In k (map fst pre).
Proof.
  induction y as [|[k' v'] y IH]; simpl.
  - exists [], []. split; [reflexivity | intros []].
  - destruct (String.eqb k' k) eqn:E.
    + apply String.eqb_eq in E. subst. exists [], y. split; [reflexivity | intros []].
    + destruct IH as [pre [post [Hy Hn]]]. exists ((k', v') :: pre), post.
      rewrite Hy. split; [reflexivity|]. simpl. intros [H|H]; [|exact (Hn H)].
      subst. rewrite String.eqb_refl in E. discriminate.
Qed.

Lemma not_in_keys_existsb {A} (pre : list (string * A)) (k : string) :
  ~ In k (map fst pre) -> existsb (fun p => String.eqb (fst p) k) pre = false.
Proof.
  intro Hn. apply not_true_iff_false. intro H. apply existsb_exists in H as [[k' v'] [Hin E]].
  simpl in E. apply String.eqb_eq in E. rewrite E in Hin. apply Hn. apply in_map_iff.
  exists (k, v'). auto.
Qed.

Section Merge.
Context {A B : Type} (skip : string -> bool) (conv : A -> B).

Lemma obj_merge_cons (k : string) (v : A) (E : list (string * A)) (y : list (string * B)) :
  obj_merge skip conv ((k, v) :: E) y =
  obj_merge skip conv E (if skip k then y else obj_set y k (conv v)).
Proof. reflexivity. Qed.

(** A key [k] keeps its position through a merge; its value stays put
    unless the merge writes [k]. *)
Lemma obj_merge_keeps (k : string) (E : list (string * A)) :
  forall pre x post, ~ In k (map fst pre) ->
  exists pre' x' post',
    obj_merge skip conv E (pre ++ (k, x) :: post) = pre' ++ (k, x') :: post' /\
    ~ In k (map fst pre') /\
    (existsb (fun p => String.eqb (fst p) k && negb (skip (fst p))) E = false -> x' = x).
Proof.
  induction E as [|[k' v'] E IH]; intros pre x post Hn.
  - exists pre, x, post. auto.
  - rewrite obj_merge_cons. simpl.
    destruct (skip k') eqn:Hs.
    + destruct (IH pre x post Hn) as [pre' [x' [post' [H1 [H2 H3]]]]].
      exists pre', x', post'. split; [exact H1|]. split; [exact H2|].
      cbn [negb] in H3 |- *. rewrite andb_false_r. exact H3.
    + cbn [negb]. rewrite andb_true_r. destruct (String.eqb k' k) eqn:Ek.
      * apply String.eqb_eq in Ek. subst k'. rewrite (obj_set_at _ _ _ _ _ Hn).
        destruct (IH pre (conv v') post Hn) as [pre' [x' [post' [H1 [H2 _]]]]].
        exists pre', x', post'. split; [exact H1|]. split; [exact H2|].
        simpl. discriminate.
      * simpl. rewrite obj_set_split.
        destruct (existsb (fun p => String.eqb (fst p) k') pre) eqn:Ep.
        -- assert (Hn' : ~ In k (map fst (obj_set pre k' (conv v'))))
             by (rewrite obj_set_keys; assumption).
           destruct (IH _ x post Hn') as [pre' [x' [post' [H1 [H2 H3]]]]].
           exists pre', x', post'. auto.
        -- simpl. rewrite String.eqb_sym, Ek.
           destruct (IH pre x (obj_set post k' (conv v')) Hn)
             as [pre' [x' [post' [H1 [H2 H3]]]]].
           exists pre', x', post'. auto.
Qed.

(** Two objects that differ only in the value of [k] merge to the same
    object when the merge writes [k]. *)
Lemma obj_merge_overwrites (k : string) (E : list (string * A)) :
  forall pre post x1 x2, ~ In k (map fst pre) ->
  existsb (fun p => String.eqb (fst p) k && negb (skip (fst p))) E = true ->
  obj_merge skip conv E (pre ++ (k, x1) :: post) =
  obj_merge skip conv E (pre ++ (k, x2) :: post).
Proof.
  induction E as [|[k' v'] E IH]; intros pre post x1 x2 Hn Hw; simpl in Hw; [discriminate|].
  rewrite !obj_merge_cons.
  destruct (skip k') eqn:Hs.
  - cbn [negb] in Hw. rewrite andb_false_r in Hw. simpl in Hw. exact (IH _ _ _ _ Hn Hw).
  - cbn [negb] in Hw. rewrite andb_true_r in Hw. destruct (String.eqb k' k) eqn:Ek.
    + apply String.eqb_eq in Ek. subst k'. rewrite !(obj_set_at _ _ _ _ _ Hn). reflexivity.
    + simpl in Hw. rewrite !obj_set_split.
      destruct (existsb (fun p => String.eqb (fst p) k') pre) eqn:Ep.
      * apply IH; [|exact Hw]. rewrite obj_set_keys; assumption.
      * simpl. rewrite String.eqb_sym, Ek. apply IH; assumption.
Qed.

Lemma obj_merge_idem (E : list (string * A)) :
  forall y, obj_merge skip conv E (obj_merge skip conv E y) = obj_merge skip conv E y.
Proof.
  induction E as [|[k v] E IH]; intro y; [reflexivity|].
  rewrite !obj_merge_cons. destruct (skip k) eqn:Hs; [apply IH|].
  rewrite <- (IH (obj_set y k (conv v))) at 2.
  destruct (obj_set_decomp y k (conv v)) as [pre [post [Hz Hn]]]. rewrite Hz.
  destruct (obj_merge_keeps k E pre (conv v) post Hn) as [pre' [x' [post' [H1 [H2 H3]]]]].
  rewrite H1, (obj_set_at _ _ _ _ _ H2).
  destruct (existsb (fun p => String.eqb (fst p) k && negb (skip (fst p))) E) eqn:Ew.
  - apply obj_merge_overwrites; assumption.
  - rewrite (H3 eq_refl). reflexivity.
Qed.

End Merge.

(** *** The group engine *)

Lemma group_handleReplace_idem (o : PatchOperation) (dn : string) (ext : option string)
    (ms : list GroupMemberDto) (raw : list (string * json)) (dn1 : string)
    (ext1 : option string) (ms1 : list GroupMemberDto) (raw1 : list (string * json)) :
  GroupPatchEngine.handleReplace o dn ext ms raw = Ok (dn1, ext1, ms1, raw1) ->
  GroupPatchEngine.handleReplace o dn1 ext1 ms1 raw1 = Ok (dn1, ext1, ms1, raw1).
Proof.
  unfold GroupPatchEngine.handleReplace. cbv zeta.
  destruct (no_path (lower_path (path o))).
  - destruct (value o) as [| | | | s | xs | fs]; try discriminate.
    + intro H. injection H as <- <- <- <-. reflexivity.
    + simpl. intro H. injection H as <- <- <- <-. f_equal. f_equal.
      exact (obj_merge_idem
               (fun key => String.eqb key "displayName" || String.eqb key "externalId" ||
                           String.eqb key "members" || String.eqb key "schemas")
               (fun v : json => v) (index_entries 0 xs) raw).
    + simpl.
      destruct (match obj_get fs "members" with
                | JArr ms0 => ds <- GroupPatchEngine.toMemberDtos ms0 ;;
                              Ok (GroupPatchEngine.ensureUniqueMembers ds)
                | _ => Ok ms
                end) as [nm|e] eqn:Hm; simpl; [|discriminate].
      intro H. injection H as <- <- <- <-.
      assert (Hm' : match obj_get fs "members" with
                    | JArr ms0 => ds <- GroupPatchEngine.toMemberDtos ms0 ;;
                                  Ok (GroupPatchEngine.ensureUniqueMembers ds)
                    | _ => Ok nm
                    end = Ok nm)
        by (destruct (obj_get fs "members"); try reflexivity; exact Hm).
      rewrite Hm'. simpl.
      rewrite (obj_merge_idem
                 (fun key => String.eqb key "displayName" || String.eqb key "externalId" ||
                             String.eqb key "members" || String.eqb key "schemas")
                 (fun v : json => v) fs raw : fold_left _ fs (fold_left _ fs raw) = _).
      destruct (obj_get fs "displayName"), (obj_has fs "externalId"),
        (obj_get fs "externalId"); reflexivity.
  - destruct (path_is (lower_path (path o)) "displayname").
    + destruct (value o); try discriminate. intro H. injection H as <- <- <- <-. reflexivity.
    + destruct (path_is (lower_path (path o)) "externalid").
      * intro H. injection H as <- <- <- <-. reflexivity.
      * destruct (path_is (lower_path (path o)) "members"); [|discriminate].
        destruct (value o) as [| | | | | xs |]; try discriminate.
        destruct (GroupPatchEngine.toMemberDtos xs) as [ds|e] eqn:Hd; simpl; [|discriminate].
        intro H. injection H as <- <- <- <-. reflexivity.
Qed.

Lemma group_replace_idem (r : PatchOperation) (s : GroupPatchState)
    (config : GroupMemberPatchConfig) (res : GroupPatchResult) :
  supported_op (op r) = Some "replace" ->
  GroupPatchEngine.apply [r] s config = Ok res ->
  GroupPatchEngine.apply [r] (group_state_of res) config = Ok res.
Proof.
  intro E. unfold GroupPatchEngine.apply. simpl. unfold GroupPatchEngine.step. rewrite E.
  simpl.
  destruct (GroupPatchEngine.handleReplace r (g_displayName s) (g_externalId s)
              (g_members s) (g_rawPayload s)) as [[[[dn ext] ms] raw]|e] eqn:H;
    simpl; [|discriminate].
  intro Hres. injection Hres as <-. simpl.
  rewrite (group_handleReplace_idem _ _ _ _ _ _ _ _ _ H). reflexivity.
Qed.

(** *** Reserved keys and the payload *)

Lemma is_reserved_lower (k : string) :
  is_reserved k = existsb (String.eqb (toLowerCase k)) RESERVED_ATTRIBUTES.
Proof.
  unfold is_reserved. destruct (existsb (String.eqb k) RESERVED_ATTRIBUTES) eqn:E;
    [|reflexivity].
  apply existsb_exists in E as [x [Hin Hx]]. apply String.eqb_eq in Hx. subst x.
  simpl in Hin. repeat destruct Hin as [<-|Hin]; try reflexivity. contradiction.
Qed.

Lemma is_reserved_ci (a b : string) :
  toLowerCase a = toLowerCase b -> is_reserved a = is_reserved b.
Proof. intro H. rewrite !is_reserved_lower, H. reflexivity. Qed.

Lemma strip_idem (p : Payload) :
  UserPatchEngine.stripReservedAttributes (UserPatchEngine.stripReservedAttributes p) =
  UserPatchEngine.stripReservedAttributes p.
Proof.
  unfold UserPatchEngine.stripReservedAttributes.
  induction p as [|[k x] p IH]; simpl; [reflexivity|].
  destruct (is_reserved k) eqn:R; simpl; [exact IH|]. rewrite R. simpl. rewrite IH.
  reflexivity.
Qed.

Lemma strip_set (p : Payload) (k : string) (x : slot) :
  UserPatchEngine.stripReservedAttributes (obj_set p k x) =
  if is_reserved k then UserPatchEngine.stripReservedAttributes p
  else obj_set (UserPatchEngine.stripReservedAttributes p) k x.
Proof.
  unfold UserPatchEngine.stripReservedAttributes.
  induction p as [|[k' x'] p IH]; simpl.
  - destruct (is_reserved k); reflexivity.
  - destruct (String.eqb k' k) eqn:E.
    + apply String.eqb_eq in E. subst k'. simpl.
      destruct (is_reserved k); simpl; [reflexivity|]. rewrite String.eqb_refl. reflexivity.
    + simpl. rewrite IH. destruct (is_reserved k') eqn:R; simpl.
      * reflexivity.
      * destruct (is_reserved k); simpl; [reflexivity|]. rewrite E. reflexivity.
Qed.

Lemma slot_get_strip (p : Payload) (k : string) :
  slot_get (UserPatchEngine.stripReservedAttributes p) k =
  if is_reserved k then None else slot_get p k.
Proof.
  unfold UserPatchEngine.stripReservedAttributes.
  induction p as [|[k' x'] p IH]; simpl.
  - destruct (is_reserved k); reflexivity.
  - destruct (is_reserved k') eqn:R; simpl.
    + rewrite IH. destruct (String.eqb k' k) eqn:E; [|reflexivity].
      apply String.eqb_eq in E. subst k'. rewrite R. reflexivity.
    + destruct (String.eqb k' k) eqn:E; [|exact IH].
      apply String.eqb_eq in E. subst k'. rewrite R. reflexivity.
Qed.

Lemma find_key_ci_lower {A} (p : list (string * A)) (a k : string) :
  find_key_ci p a = Some k -> toLowerCase k = toLowerCase a.
Proof.
  induction p as [|[k' x'] p IH]; simpl; [discriminate|].
  destruct (String.eqb (toLowerCase k') (toLowerCase a)) eqn:E; [|exact IH].
  intro H. injection H as <-. apply String.eqb_eq. exact E.
Qed.

Lemma find_key_ci_strip (p : Payload) (a : string) :
  find_key_ci (UserPatchEngine.stripReservedAttributes p) a =
  if is_reserved a then None else find_key_ci p a.
Proof.
  unfold UserPatchEngine.stripReservedAttributes.
  induction p as [|[k' x'] p IH]; simpl.
  - destruct (is_reserved a); reflexivity.
  - destruct (String.eqb (toLowerCase k') (toLowerCase a)) eqn:E.
    + apply String.eqb_eq in E. rewrite <- (is_reserved_ci _ _ E).
      destruct (is_reserved k') eqn:R; simpl.
      * rewrite IH, <- (is_reserved_ci _ _ E), R. reflexivity.
      * rewrite E, String.eqb_refl. reflexivity.
    + destruct (is_reserved k'); simpl; [exact IH|]. rewrite E. exact IH.
Qed.

Lemma find_key_ci_none_slot (p : Payload) (a : string) :
  find_key_ci p a = None -> slot_get p a = None.
Proof.
  induction p as [|[k' x'] p IH]; simpl; [reflexivity|].
  destruct (String.eqb (toLowerCase k') (toLowerCase a)) eqn:E; [discriminate|].
  destruct (String.eqb k' a) eqn:E'; [|exact IH].
  apply String.eqb_eq in E'. subst. rewrite String.eqb_refl in E. discriminate.
Qed.

Lemma find_key_ci_set (p : Payload) (k a : string) (x : slot) :
  find_key_ci (obj_set p k x) a =
  match find_key_ci p a with
  | Some k' => Some k'
  | None => if String.eqb (toLowerCase k) (toLowerCase a) then Some k else None
  end.
Proof.
  induction p as [|[k' x'] p IH]; simpl; [reflexivity|].
  destruct (String.eqb k' k) eqn:E; simpl.
  - apply String.eqb_eq in E. subst k'.
    destruct (String.eqb (toLowerCase k) (toLowerCase a)) eqn:L; [reflexivity|].
    destruct (find_key_ci p a); reflexivity.
  - destruct (String.eqb (toLowerCase k') (toLowerCase a)); [reflexivity|]. exact IH.
Qed.

Lemma slot_get_set (p : Payload) (k : string) (x : slot) :
  slot_get (obj_set p k x) k = Some x.
Proof.
  induction p as [|[k' x'] p IH]; simpl; [rewrite String.eqb_refl; reflexivity|].
  destruct (String.eqb k' k) eqn:E; simpl; rewrite E; [reflexivity|exact IH].
Qed.

Lemma obj_set_present (p : Payload) (k : string) (x : slot) :
  slot_get p k = Some x -> obj_set p k x = p.
Proof.
  induction p as [|[k' x'] p IH]; simpl; [discriminate|].
  destruct (String.eqb k' k); [intro H; injection H as ->; reflexivity|].
  intro H. rewrite (IH H). reflexivity.
Qed.

(** Writing a key twice, with the payload stripped in between, leaves the
    stripped payload of the first write. *)
Lemma strip_set_again (raw : Payload) (k : string) (x : slot) :
  UserPatchEngine.stripReservedAttributes
    (obj_set (UserPatchEngine.stripReservedAttributes (obj_set raw k x)) k x) =
  UserPatchEngine.stripReservedAttributes (obj_set raw k x).
Proof.
  rewrite (strip_set (UserPatchEngine.stripReservedAttributes _)).
  destruct (is_reserved k) eqn:R; [apply strip_idem|].
  rewrite strip_idem, (strip_set raw), R. apply obj_set_idem.
Qed.

Lemma strip_set_reserved (q : Payload) (k : string) (x : slot) :
  is_reserved k = true ->
  UserPatchEngine.stripReservedAttributes
    (obj_set (UserPatchEngine.stripReservedAttributes q) k x) =
  UserPatchEngine.stripReservedAttributes q.
Proof. intro R. rewrite strip_set, R. apply strip_idem. Qed.

Lemma strip_merge (U : list (string * json)) :
  forall p, UserPatchEngine.stripReservedAttributes (resolveNoPathValue p U) =
            obj_merge is_reserved SVal U (UserPatchEngine.stripReservedAttributes p).
Proof.
  unfold resolveNoPathValue.
  induction U as [|[k v] U IH]; intro p; simpl; [reflexivity|].
  rewrite IH, strip_set. destruct (is_reserved k); reflexivity.
Qed.

Lemma dot_notation_replace_idem (raw : Payload) (orig : string) (v : json) (h : heap)
    (raw1 : Payload) (h1 : heap) :
  UserPatchEngine.applyDotNotation raw orig v h = (Ok raw1, h1) ->
  match UserPatchEngine.applyDotNotation (UserPatchEngine.stripReservedAttributes raw1)
          orig v h1 with
  | (Ok raw2, h2) =>
      UserPatchEngine.stripReservedAttributes raw2 =
      UserPatchEngine.stripReservedAttributes raw1 /\ forall l, h2 l = h1 l
  | (Err _, _) => False
  end.
Proof.
  unfold UserPatchEngine.applyDotNotation.
  destruct (match split_at_char "."%char orig with
            | Some pc => pc | None => (orig, EmptyString) end) as [pa ca].
  rewrite find_key_ci_strip.
  destruct (is_reserved pa) eqn:R.
  - intros _. rewrite slot_get_strip, R. split; [apply strip_set_reserved; exact R|].
    reflexivity.
  - destruct (find_key_ci raw pa) as [k0|] eqn:F.
    + assert (Rk : is_reserved k0 = false)
        by (rewrite (is_reserved_ci _ _ (find_key_ci_lower _ _ _ F)); exact R).
      destruct (slot_get raw k0) as [[[| | | | | | fs] | l] |] eqn:S;
        intro H; injection H as <- <-.
      all: try (rewrite find_key_ci_set, F, slot_get_strip, Rk, slot_get_set; simpl;
                rewrite ?String.eqb_refl, ?obj_set_idem;
                split; [apply strip_set_again | reflexivity]).
      rewrite F, slot_get_strip, Rk, S. split; [apply strip_idem|].
      intro l'. unfold heap_upd. rewrite Nat.eqb_refl.
      destruct (Nat.eqb l' l); [apply obj_set_idem | reflexivity].
    + rewrite (find_key_ci_none_slot _ _ F). intro H. injection H as <- <-.
      rewrite find_key_ci_set, F, String.eqb_refl, slot_get_strip, R, slot_get_set. simpl.
      rewrite String.eqb_refl. split; [apply strip_set_again | reflexivity].
Qed.

Lemma extension_replace_idem (h : heap) (raw : Payload) (urn sub : string) (v : json) :
  UserPatchEngine.stripReservedAttributes
    (applyExtensionUpdate h
       (UserPatchEngine.stripReservedAttributes (applyExtensionUpdate h raw (urn, sub) v))
       (urn, sub) v) =
  UserPatchEngine.stripReservedAttributes (applyExtensionUpdate h raw (urn, sub) v).
Proof.
  unfold applyExtensionUpdate at 1.
  destruct (is_reserved urn) eqn:R; [apply strip_set_reserved; exact R|].
  unfold applyExtensionUpdate. rewrite slot_get_strip, R, slot_get_set. simpl.
  rewrite obj_set_idem. apply strip_set_again.
Qed.

Lemma vp_update_idem (vp : ParsedValuePath) (v el : json) :
  vp_update vp v (vp_update vp v el) = vp_update vp v el.
Proof.
  unfold vp_update. destruct (vp_sub vp), el; try reflexivity. rewrite obj_set_idem.
  reflexivity.
Qed.

Lemma value_path_replace_idem (raw : Payload) (vp : ParsedValuePath) (v : json) :
  UserPatchEngine.stripReservedAttributes
    (applyValuePathUpdate
       (UserPatchEngine.stripReservedAttributes (applyValuePathUpdate raw vp v)) vp v) =
  UserPatchEngine.stripReservedAttributes (applyValuePathUpdate raw vp v).
Proof.
  unfold applyValuePathUpdate at 1.
  destruct (is_reserved (vp_attr vp)) eqn:R; [apply strip_set_reserved; exact R|].
  unfold vp_elements at 1. unfold applyValuePathUpdate at 2.
  rewrite slot_get_strip, R, slot_get_set, map_map.
  rewrite (map_ext
             (fun x => if vp_matches vp (if vp_matches vp x then vp_update vp v x else x)
                       then vp_update vp v (if vp_matches vp x then vp_update vp v x else x)
                       else if vp_matches vp x then vp_update vp v x else x)
             (fun el => if vp_matches vp el then vp_update vp v el else el)).
  - apply strip_set_again.
  - intro el. destruct (vp_matches vp el) eqn:M; [|rewrite M; reflexivity].
    destruct (vp_matches vp (vp_update vp v el)); [apply vp_update_idem | reflexivity].
Qed.

Lemma no_path_replace_idem (raw : Payload) (U : list (string * json)) :
  UserPatchEngine.stripReservedAttributes
    (resolveNoPathValue (UserPatchEngine.stripReservedAttributes (resolveNoPathValue raw U)) U) =
  UserPatchEngine.stripReservedAttributes (resolveNoPathValue raw U).
Proof.
  rewrite (strip_merge U (UserPatchEngine.stripReservedAttributes _)), strip_idem,
    strip_merge.
  apply obj_merge_idem.
Qed.

Lemma user_applyAddOrReplace_replace_idem (pth : option string) (v : json) (f : UserFields)
    (raw : Payload) (config : PatchConfig) (h : heap) (f1 : UserFields) (raw1 : Payload)
    (h1 : heap) :
  UserPatchEngine.applyAddOrReplace "replace" pth v f raw config h = (Ok (f1, raw1), h1) ->
  match UserPatchEngine.applyAddOrReplace "replace" pth v f1
          (UserPatchEngine.stripReservedAttributes raw1) config h1 with
  | (Ok (f2, raw2), h2) =>
      f2 = f1 /\
      UserPatchEngine.stripReservedAttributes raw2 =
      UserPatchEngine.stripReservedAttributes raw1 /\ forall l, h2 l = h1 l
  | (Err _, _) => False
  end.
Proof.
  unfold UserPatchEngine.applyAddOrReplace. cbv zeta. unfold bindM, lift, ret.
  destruct (path_is (lower_path pth) "active").
  { destruct (UserPatchEngine.extractBooleanValue v) as [b|e]; simpl; intro H;
      [injection H as <- <- <- | discriminate].
    split; [reflexivity|]. split; [apply strip_set_again | reflexivity]. }
  destruct (path_is (lower_path pth) "username").
  { destruct (UserPatchEngine.extractStringValue v) as [s|e]; simpl; intro H;
      [injection H as <- <- <- | discriminate].
    split; [reflexivity|]. split; [apply strip_idem | reflexivity]. }
  destruct (path_is (lower_path pth) "displayname").
  { destruct (UserPatchEngine.extractNullableStringValue v) as [s|e]; simpl; intro H;
      [injection H as <- <- <- | discriminate].
    split; [reflexivity|]. split; [apply strip_set_again | reflexivity]. }
  destruct (path_is (lower_path pth) "externalid").
  { destruct (UserPatchEngine.extractNullableStringValue v) as [s|e]; simpl; intro H;
      [injection H as <- <- <- | discriminate].
    split; [reflexivity|]. split; [apply strip_idem | reflexivity]. }
  destruct (UserPatchEngine.truthy_path pth) as [orig|].
  - destruct (isExtensionPath orig).
    { destruct (parseExtensionPath orig) as [[urn sub]|]; intro H; injection H as <- <- <-;
        (split; [reflexivity|]; split; [|reflexivity]).
      - apply extension_replace_idem.
      - apply strip_idem. }
    destruct (isValuePath orig).
    { destruct (parseValuePath orig) as [vp|]; simpl; intro H; injection H as <- <- <-;
        (split; [reflexivity|]; split; [|reflexivity]).
      - apply value_path_replace_idem.
      - apply strip_idem. }
    destruct (verbosePatch config && has_char "."%char orig).
    { destruct (UserPatchEngine.applyDotNotation raw orig v h) as [[raw'|e] h'] eqn:D;
        simpl; intro H; [injection H as <- <- <- | discriminate].
      pose proof (dot_notation_replace_idem _ _ _ _ _ _ D) as Hd.
      destruct (UserPatchEngine.applyDotNotation (UserPatchEngine.stripReservedAttributes raw')
                  orig v h') as [[raw2|e] h2]; [|contradiction].
      simpl. split; [reflexivity | exact Hd]. }
    intro H. injection H as <- <- <-.
    split; [reflexivity|]. split; [apply strip_set_again | reflexivity].
  - destruct v as [| | | | s | xs | fs];
      try (intro H; injection H as <- <- <-;
           split; [reflexivity|]; split; [apply strip_idem | reflexivity]).
    all: intro H; simpl in H;
      repeat match type of H with
      | context [if ?c then _ else _] => destruct c eqn:?
      | context [match ?m with Ok _ => _ | Err _ => _ end] => destruct m eqn:?
      end; try discriminate;
      injection H as <- <- <-; simpl;
      repeat match goal with E : ?c = _ |- context [?c] => rewrite E end; simpl;
      (split; [reflexivity|]; split; [apply no_path_replace_idem | reflexivity]).
Qed.

Lemma user_replace_idem (r : PatchOperation) (s : UserPatchState) (config : PatchConfig)
    (h : heap) (res : UserPatchResult) (h1 : heap) :
  supported_op (op r) = Some "replace" ->
  UserPatchEngine.apply [r] s config h = (Ok res, h1) ->
  exists h2, UserPatchEngine.apply [r] (user_state_of res) config h1 = (Ok res, h2) /\
             forall l, h2 l = h1 l.
Proof.
  intro E. unfold UserPatchEngine.apply, UserPatchEngine.run, UserPatchEngine.step.
  unfold bindM, ret. rewrite E. simpl.
  destruct (UserPatchEngine.applyAddOrReplace "replace" (path r) (value r)
              {| f_userName := u_userName s; f_displayName := u_displayName s;
                 f_externalId := u_externalId s; f_active := u_active s |}
              (u_rawPayload s) config h) as [[[f1 raw1]|e] h1'] eqn:A;
    intro H; [|discriminate].
  injection H as <- <-.
  pose proof (user_applyAddOrReplace_replace_idem _ _ _ _ _ _ _ _ _ A) as I.
  destruct f1 as [un dn ext act]. unfold user_state_of. simpl.
  destruct (UserPatchEngine.applyAddOrReplace "replace" (path r) (value r)
              {| f_userName := un; f_displayName := dn; f_externalId := ext; f_active := act |}
              (UserPatchEngine.stripReservedAttributes raw1) config h1')
    as [[[f2 raw2]|e] h2]; [|contradiction].
  destruct I as [-> [Hs Hh]]. exists h2. simpl. rewrite Hs. split; [reflexivity | exact Hh].
Qed.

(** *** C9 *)

(** C9: a [replace] operation is idempotent in both engines.  For the
    group engine, if [apply [r] s] succeeds with [res], then applying [r]
    to the state [res] describes gives [res] again.  For the user engine,
    if [apply [r] s] succeeds with [res] on heap [h] (leaving heap [h1]),
    then applying [r] to the state [res] describes, on [h1], gives [res]
    again and leaves every shared object as it is in [h1]. *)
Theorem patch_replace_idempotent :
  (forall (r : PatchOperation) (s : GroupPatchState) (config : GroupMemberPatchConfig)
          (res : GroupPatchResult),
     supported_op (op r) = Some "replace" ->
     GroupPatchEngine.apply [r] s config = Ok res ->
     GroupPatchEngine.apply [r] (group_state_of res) config = Ok res) /\
  (forall (r : PatchOperation) (s : UserPatchState) (config : PatchConfig) (h : heap)
          (res : UserPatchResult) (h1 : heap),
     supported_op (op r) = Some "replace" ->
     UserPatchEngine.apply [r] s config h = (Ok res, h1) ->
     exists h2, UserPatchEngine.apply [r] (user_state_of res) config h1 = (Ok res, h2) /\
                forall l, h2 l = h1 l).
Proof. split; [exact group_replace_idem | exact user_replace_idem]. Qed.

Lemma patch_replace_idempotent_witness :
  GroupPatchEngine.apply
    [{| op := Some "replace"; path := None;
        value := JObj [("displayName", JStr "New"); ("customField", JStr "data")] |}]
    (group_state_of
       {| r_displayName := "New"; r_externalId := Some "grp-001";
          r_payload := [("customField", JStr "data")];
          r_members := [{| m_value := JStr "user-1"; m_display := JStr "User user-1";
                           m_type := JUndef |}] |})
    {| allowMultiMemberAdd := true; allowMultiMemberRemove := true;
       allowRemoveAllMembers := true |} =
  Ok {| r_displayName := "New"; r_externalId := Some "grp-001";
        r_payload := [("customField", JStr "data")];
        r_members := [{| m_value := JStr "user-1"; m_display := JStr "User user-1";
                         m_type := JUndef |}] |} /\
  fst (UserPatchEngine.apply
         [{| op := Some "Replace"; path := None;
             value := JObj [("DisplayName", JStr "Babs"); ("nickName", JStr "b");
                            ("active", JStr "False")] |}]
         (user_state_of
            {| payload := [("title", SVal (JStr "x")); ("displayName", SVal (JStr "Babs"));
                           ("nickName", SVal (JStr "b"))];
               extractedFields := {| f_userName := "bjensen"; f_displayName := Some "Babs";
                                     f_externalId := None; f_active := false |} |})
         {| verbosePatch := false |} (fun _ => [])) =
  Ok {| payload := [("title", SVal (JStr "x")); ("displayName", SVal (JStr "Babs"));
                    ("nickName", SVal (JStr "b"))];
        extractedFields := {| f_userName := "bjensen"; f_displayName := Some "Babs";
                              f_externalId := None; f_active := false |} |}.
Proof.
  split.
  - apply (proj1 patch_replace_idempotent
             {| op := Some "replace"; path := None;
                value := JObj [("displayName", JStr "New"); ("customField", JStr "data")] |}
             {| g_displayName := "Engineering"; g_externalId := Some "grp-001";
                g_members := [{| m_value := JStr "user-1"; m_display := JStr "User user-1";
                                 m_type := JUndef |}];
                g_rawPayload := [] |});
      vm_compute; reflexivity.
  - destruct (proj2 patch_replace_idempotent
                {| op := Some "Replace"; path := None;
                   value := JObj [("DisplayName", JStr "Babs"); ("nickName", JStr "b");
                                  ("active", JStr "False")] |}
                {| u_userName := "bjensen"; u_displayName := None; u_externalId := None;
                   u_active := true;
                   u_rawPayload := [("userName", SVal (JStr "bjensen"));
                                    ("title", SVal (JStr "x"))] |}
                {| verbosePatch := false |} (fun _ => [])
                {| payload := [("title", SVal (JStr "x")); ("displayName", SVal (JStr "Babs"));
                               ("nickName", SVal (JStr "b"))];
                   extractedFields := {| f_userName := "bjensen"; f_displayName := Some "Babs";
                                         f_externalId := None; f_active := false |} |}
                (fun _ => []))
      as [h2 [Hr _]]; [vm_compute; reflexivity | vm_compute; reflexivity |].
    rewrite Hr. reflexivity.
Defined.

(* ------------------------------------------------------------------ *)
(** ** Further properties of the patch engines and the filter evaluator *)


Lemma existsb_false_in {A} (f : A -> bool) (l : list A) (x : A) :
  existsb f l = false -> In x l -> f x = false.
Proof.
  intros H Hin. destruct (f x) eqn:E; [|reflexivity].
  assert (existsb f l = true) by (apply existsb_exists; eauto). congruence.
Qed.

Lemma map_keep {A} (f : A -> A) (l : list A) :
  (forall x, In x l -> f x = x) -> map f l = l.
Proof.
  induction l as [|x l IH]; simpl; intro H; [reflexivity|].
  rewrite (H x (or_introl eq_refl)), IH; [reflexivity|]. intros y Hy. exact (H y (or_intror Hy)).
Qed.

Lemma map_set_fresh (S : list (json * GroupMemberDto)) (k : json) (m : GroupMemberDto) :
  (forall k' m', In (k', m') S -> same_value_zero k' k = false) ->
  map_set S k m = S ++ [(k, m)].
Proof.
  induction S as [|[k0 m0] S IH]; simpl; intros H; [reflexivity|].
  rewrite (H k0 m0 (or_introl eq_refl)), IH; [reflexivity|].
  intros k' m' Hin. exact (H k' m' (or_intror Hin)).
Qed.

Lemma ensure_fold_fresh (xs : list GroupMemberDto) :
  forall S : list (json * GroupMemberDto),
  (forall k' m', In (k', m') S -> forall x, In x xs -> same_value_zero k' (m_value x) = false) ->
  unique_values xs = true ->
  fold_left (fun seen m => map_set seen (m_value m) m) xs S =
  S ++ map (fun m => (m_value m, m)) xs.
Proof.
  induction xs as [|x xs IH]; intros S H U; simpl; [rewrite app_nil_r; reflexivity|].
  simpl in U. apply andb_prop in U as [Ux U]. apply negb_true_iff in Ux.
  rewrite map_set_fresh by (intros k' m' Hin; exact (H k' m' Hin x (or_introl eq_refl))).
  rewrite IH; [rewrite <- app_assoc; reflexivity| |exact U].
  intros k' m' Hin y Hy. apply in_app_or in Hin as [Hin|[E|[]]].
  - exact (H k' m' Hin y (or_intror Hy)).
  - injection E as <- <-. rewrite sv_sym. exact (existsb_false_in _ _ _ Ux Hy).
Qed.

Lemma ensureUnique_id (ms : list GroupMemberDto) :
  unique_values ms = true -> GroupPatchEngine.ensureUniqueMembers ms = ms.
Proof.
  intro U. unfold GroupPatchEngine.ensureUniqueMembers.
  rewrite (ensure_fold_fresh ms [] (fun _ _ H => match H with end) U). simpl.
  rewrite map_map. apply map_id.
Qed.

Lemma map_set_pairs (ms : list GroupMemberDto) (k : json) (d : GroupMemberDto) :
  unique_values ms = true ->
  map snd (map_set (map (fun m => (m_value m, m)) ms) k d) =
  if existsb (fun m => same_value_zero (m_value m) k) ms
  then map (fun m => if same_value_zero (m_value m) k then d else m) ms
  else ms ++ [d].
Proof.
  induction ms as [|m ms IH]; simpl; intro U; [reflexivity|].
  apply andb_prop in U as [Um U]. apply negb_true_iff in Um.
  destruct (same_value_zero (m_value m) k) eqn:E; simpl.
  - apply sv_eq in E. subst k. f_equal.
    rewrite map_map, map_id. symmetry. apply map_keep. intros x Hx.
    rewrite (existsb_false_in _ _ _ Um Hx). reflexivity.
  - rewrite (IH U). destruct (existsb _ ms); reflexivity.
Qed.

(** X1: [ensureUniqueMembers] returns a member list whose values are already pairwise distinct unchanged, in the same order. *)
Theorem group_ensureUniqueMembers_keeps_unique_lists (ms : list GroupMemberDto)
    (Huniq : unique_values ms = true) :
  GroupPatchEngine.ensureUniqueMembers ms = ms.
Proof. exact (ensureUnique_id ms Huniq). Qed.

(** X2: when the current members have pairwise distinct values, an [add]
    on the members (path [members] or none) with a single member object
    carrying [value] overwrites, in place, the member with the same value,
    or appends the new member when there is none; this holds whatever
    [allowMultiMemberAdd] is. *)
Theorem group_add_single_member_in_place (o : PatchOperation) (ms : list GroupMemberDto)
    (allowMulti : bool) (fs : list (string * json))
    (Hpath : no_path (lower_path (path o)) || path_is (lower_path (path o)) "members" = true)
    (Hval : value o = JObj fs) (Hhas : obj_has fs "value" = true)
    (Huniq : unique_values ms = true) :
  let d := {| m_value := obj_get fs "value"; m_display := obj_get fs "display";
              m_type := obj_get fs "type" |} in
  GroupPatchEngine.handleAdd o ms allowMulti =
  Ok (if existsb (fun m => same_value_zero (m_value m) (m_value d)) ms
      then map (fun m => if same_value_zero (m_value m) (m_value d) then d else m) ms
      else ms ++ [d]).
Proof.
  intro d. unfold GroupPatchEngine.handleAdd. cbv zeta.
  assert (Hp : negb (no_path (lower_path (path o))) &&
               negb (path_is (lower_path (path o)) "members") = false)
    by (destruct (no_path _), (path_is _ _); simpl in *; congruence).
  rewrite Hp, Hval. simpl. rewrite andb_false_r. simpl. rewrite Hhas. simpl.
  f_equal. unfold GroupPatchEngine.ensureUniqueMembers. rewrite fold_left_app.
  rewrite (ensure_fold_fresh ms [] (fun _ _ H => match H with end) Huniq). simpl.
  apply map_set_pairs. exact Huniq.
Qed.

Lemma filter_filter_and {A} (f g : A -> bool) (l : list A) :
  filter g (filter f l) = filter (fun x => f x && g x) l.
Proof.
  induction l as [|x l IH]; simpl; [reflexivity|].
  destruct (f x); simpl; [destruct (g x); simpl; rewrite IH; reflexivity | exact IH].
Qed.

Lemma filter_false {A} (l : list A) : filter (fun _ => false) l = [].
Proof. induction l; simpl; auto. Qed.

Lemma handleRemove_filter (o : PatchOperation) (ms ms' : list GroupMemberDto) (a b : bool) :
  GroupPatchEngine.handleRemove o ms a b = Ok ms' -> exists keep, ms' = filter keep ms.
Proof.
  unfold GroupPatchEngine.handleRemove. cbv zeta. intro H.
  repeat match type of H with
         | Ok _ = Ok _ => injection H as <-
         | Err _ = Ok _ => discriminate H
         | context [match ?x with _ => _ end] => destruct x
         end;
    first [exists (fun _ => false); symmetry; apply filter_false | eexists; reflexivity].
Qed.

(** X3: a group batch made only of [remove] operations that succeeds keeps the display name, the external id and the raw payload, and its members are a filtered sublist of the input members (never added to or reordered). *)
Theorem group_remove_batch_only_narrows_members (ops : list PatchOperation)
    (state : GroupPatchState) (config : GroupMemberPatchConfig) (res : GroupPatchResult)
    (Hrem : forallb is_remove ops = true)
    (Hok : GroupPatchEngine.apply ops state config = Ok res) :
  r_displayName res = g_displayName state /\ r_externalId res = g_externalId state /\
  r_payload res = g_rawPayload state /\
  exists keep : GroupMemberDto -> bool, r_members res = filter keep (g_members state).
Proof.
  unfold GroupPatchEngine.apply in Hok.
  set (st0 := {| r_displayName := g_displayName state; r_externalId := g_externalId state;
                 r_payload := g_rawPayload state; r_members := g_members state |}) in Hok.
  change (r_displayName res = r_displayName st0 /\ r_externalId res = r_externalId st0 /\
          r_payload res = r_payload st0 /\
          exists keep : GroupMemberDto -> bool, r_members res = filter keep (r_members st0)).
  clearbody st0. revert st0 Hok.
  induction ops as [|o ops IH]; intros st Hok; simpl in Hok.
  - injection Hok as <-. repeat split; auto. exists (fun _ => true).
    induction (r_members st) as [|m ms IHm]; simpl; [reflexivity|]. rewrite <- IHm. reflexivity.
  - simpl in Hrem. apply andb_prop in Hrem as [Ho Hrest].
    unfold is_remove in Ho.
    destruct (supported_op_cases (op o)) as [E|[E|[E|E]]]; rewrite E in Ho;
      try discriminate.
    unfold GroupPatchEngine.step in Hok. rewrite E in Hok. simpl in Hok.
    destruct (GroupPatchEngine.handleRemove o (r_members st) (allowMultiMemberRemove config)
                (allowRemoveAllMembers config)) as [ms|e] eqn:Hr; simpl in Hok; [|discriminate].
    destruct (IH Hrest _ Hok) as [H1 [H2 [H3 [keep Hk]]]]. simpl in *.
    destruct (handleRemove_filter _ _ _ _ _ Hr) as [keep0 ->].
    repeat split; auto. exists (fun x => keep0 x && keep x). rewrite Hk. apply filter_filter_and.
Qed.

(* lower-case strings *)
Lemma lower_ascii_idem (c : ascii) : lower_ascii (lower_ascii c) = lower_ascii c.
Proof. destruct c as [[] [] [] [] [] [] [] []]; vm_compute; reflexivity. Qed.

Lemma toLowerCase_idem (s : string) : toLowerCase (toLowerCase s) = toLowerCase s.
Proof. induction s as [|c s IH]; simpl; [reflexivity|]. rewrite lower_ascii_idem, IH. reflexivity. Qed.

Lemma toLowerCase_append (a b : string) :
  toLowerCase (append a b) = append (toLowerCase a) (toLowerCase b).
Proof. induction a as [|c a IH]; simpl; [reflexivity|]. rewrite IH. reflexivity. Qed.

Lemma toLowerCase_rev (s : string) : toLowerCase (str_rev s) = str_rev (toLowerCase s).
Proof.
  induction s as [|c s IH]; simpl; [reflexivity|]. rewrite toLowerCase_append, IH. reflexivity.
Qed.

Lemma lower_tail (c : ascii) (s : string) :
  toLowerCase (String c s) = String c s -> toLowerCase s = s.
Proof. simpl. intro H. injection H as _ H. exact H. Qed.

Lemma lower_rev (s : string) : toLowerCase s = s -> toLowerCase (str_rev s) = str_rev s.
Proof. intro H. rewrite toLowerCase_rev, H. reflexivity. Qed.

Lemma strip_prefix_lower (pre s r : string) :
  strip_prefix pre s = Some r -> toLowerCase s = s -> toLowerCase r = r.
Proof.
  revert s. induction pre as [|c pre IH]; intros [|d s]; simpl; try discriminate.
  - intro H. injection H as <-. auto.
  - intro H. injection H as <-. auto.
  - destruct (Ascii.eqb c d); [|discriminate]. intros H L. exact (IH s H (lower_tail _ _ L)).
Qed.

Lemma ws_tails_lower (s t : string) :
  In t (ws_tails s) -> toLowerCase s = s -> toLowerCase t = t.
Proof.
  induction s as [|c s IH]; simpl; [intros []|].
  destruct (is_ws c); [|intros []]. intros Hin L. apply lower_tail in L.
  apply in_app_or in Hin as [Hin|[<-|[]]]; [exact (IH Hin L)|exact L].
Qed.

Lemma capture_tail_lower (r c : string) :
  capture_tail r = Some c -> toLowerCase r = r -> toLowerCase c = c.
Proof.
  unfold capture_tail. intros H L. apply lower_rev in L.
  destruct (str_rev r) as [|a rbody]; [discriminate|].
  apply lower_tail in L.
  destruct a as [[] [] [] [] [] [] [] []]; try discriminate H.
  cbv zeta in H.
  destruct rbody as [|q rc].
  - destruct (no_quote (str_rev "") && _); [|discriminate]. injection H as <-. reflexivity.
  - destruct (Ascii.eqb q dquote).
    + destruct (no_quote (str_rev rc) && _); [|discriminate]. injection H as <-.
      apply lower_rev. exact (lower_tail _ _ L).
    + destruct (no_quote (str_rev (String q rc)) && _); [|discriminate]. injection H as <-.
      exact (lower_rev (String q rc) L).
Qed.

Lemma capture_after_eq_lower (r c : string) :
  capture_after_eq r = Some c -> toLowerCase r = r -> toLowerCase c = c.
Proof.
  unfold capture_after_eq. destruct r as [|q r']; [apply capture_tail_lower|].
  destruct (Ascii.eqb q dquote).
  - intros H L. exact (capture_tail_lower _ _ H (lower_tail _ _ L)).
  - apply capture_tail_lower.
Qed.

Lemma first_some_in (xs : list (option string)) (x : string) :
  first_some xs = Some x -> In (Some x) xs.
Proof.
  induction xs as [|[y|] xs IH]; simpl; [discriminate| |].
  - intro H. injection H as ->. auto.
  - intro H. right. exact (IH H).
Qed.

Lemma matchMemberPath_lower (p x : string) :
  matchMemberPath p = Some x -> toLowerCase p = p -> toLowerCase x = x.
Proof.
  unfold matchMemberPath. intros H L.
  destruct (strip_prefix "members[value" p) as [r1|] eqn:E1; [|discriminate].
  pose proof (strip_prefix_lower _ _ _ E1 L) as L1.
  apply first_some_in, in_map_iff in H as [t [Ht Hin]].
  pose proof (ws_tails_lower _ _ Hin L1) as Lt.
  destruct (strip_prefix "eq" t) as [r2|] eqn:E2; [|discriminate].
  pose proof (strip_prefix_lower _ _ _ E2 Lt) as L2.
  apply first_some_in, in_map_iff in Ht as [u [Hu Hin']].
  exact (capture_after_eq_lower _ _ Hu (ws_tails_lower _ _ Hin' L2)).
Qed.

Lemma strict_eq_str (v : json) (x : string) : strict_eq v (JStr x) = true <-> v = JStr x.
Proof.
  destruct v; simpl; split; intro H; try discriminate; try (injection H as ->);
    try (apply String.eqb_eq in H; subst); try apply String.eqb_refl; reflexivity.
Qed.

(** X4: a targeted remove [members[value eq X]] matches the path after lowercasing it, so the captured value is lowercase and a member is removed exactly when its value is that lowercase string; members whose value has uppercase letters are always kept. *)
Theorem group_targeted_remove_keeps_uppercase_values (o : PatchOperation)
    (ms : list GroupMemberDto) (allowMulti allowAll : bool) (pth x : string)
    (Hpath : path o = Some pth)
    (Hmatch : matchMemberPath (toLowerCase pth) = Some x)
    (Hval : match value o with JArr (_ :: _) => false | _ => true end = true) :
  exists ms',
    GroupPatchEngine.handleRemove o ms allowMulti allowAll = Ok ms' /\
    toLowerCase x = x /\
    (forall m, In m ms -> (In m ms' <-> m_value m <> JStr x)) /\
    (forall m s, In m ms -> m_value m = JStr s -> toLowerCase s <> s -> In m ms').
Proof.
  assert (Lx : toLowerCase x = x) by exact (matchMemberPath_lower _ _ Hmatch (toLowerCase_idem pth)).
  exists (filter (fun m => negb (strict_eq (m_value m) (JStr x))) ms).
  assert (Hin : forall m, In m ms ->
            (In m (filter (fun m => negb (strict_eq (m_value m) (JStr x))) ms) <->
             m_value m <> JStr x)).
  { intros m Hm. rewrite filter_In, negb_true_iff, <- not_true_iff_false, strict_eq_str.
    tauto. }
  split; [|split; [exact Lx|split; [exact Hin|]]].
  - unfold GroupPatchEngine.handleRemove. rewrite Hpath. cbn [lower_path option_map].
    rewrite Hmatch.
    destruct (value o) as [| | | | |[|y ys]|]; try discriminate Hval; reflexivity.
  - intros m s Hm Hv Hs. apply (proj2 (Hin m Hm)). rewrite Hv. intro E.
    injection E as ->. exact (Hs Lx).
Qed.

(** X5: a [remove] on [members] with no value (or an empty array) clears the member list, other fields kept, when [allowRemoveAllMembers] is on, and fails with [invalidValue] otherwise. *)
Theorem group_remove_all_members_gated (config : GroupMemberPatchConfig)
    (st : GroupPatchResult) (o : PatchOperation)
    (Hop : supported_op (op o) = Some "remove")
    (Hpath : lower_path (path o) = Some "members")
    (Hval : match value o with JArr (_ :: _) => false | _ => true end = true) :
  GroupPatchEngine.step config st o =
  if allowRemoveAllMembers config
  then Ok {| r_displayName := r_displayName st; r_externalId := r_externalId st;
             r_payload := r_payload st; r_members := [] |}
  else Err (err400 invalidValue).
Proof.
  unfold GroupPatchEngine.step. rewrite Hop. cbn iota beta.
  unfold GroupPatchEngine.handleRemove. cbv zeta. rewrite Hpath.
  replace (option_map matchMemberPath (Some "members")) with (Some (@None string))
    by (vm_compute; reflexivity).
  destruct (value o) as [| | | | |[|y ys]|]; try discriminate Hval;
    simpl; destruct (allowRemoveAllMembers config); reflexivity.
Qed.

(** X6: a [remove] carrying more than one member value, with [allowMultiMemberRemove] off, makes the whole group batch fail with [invalidValue] once the operations before it succeeded. *)
Theorem group_multi_remove_rejected (pre post : list PatchOperation) (o : PatchOperation)
    (state : GroupPatchState) (config : GroupMemberPatchConfig) (mid : GroupPatchResult)
    (xs : list json)
    (Hcfg : allowMultiMemberRemove config = false)
    (Hop : supported_op (op o) = Some "remove")
    (Hval : value o = JArr xs)
    (Hlen : (1 < length xs)%nat)
    (Hpre : GroupPatchEngine.apply pre state config = Ok mid) :
  GroupPatchEngine.apply (pre ++ o :: post) state config = Err (err400 invalidValue).
Proof.
  unfold GroupPatchEngine.apply in *. rewrite group_run_app, Hpre. simpl.
  unfold GroupPatchEngine.step. rewrite Hop. simpl.
  unfold GroupPatchEngine.handleRemove. rewrite Hval, Hcfg.
  assert (Hl : (1 <? length xs)%nat = true) by (apply Nat.ltb_lt; exact Hlen).
  destruct xs as [|x xs']; [discriminate Hl|]. cbv iota beta. simpl negb.
  rewrite Hl. reflexivity.
Qed.

(* user run over an append *)
Lemma user_run_app (config : PatchConfig) (a b : list PatchOperation) :
  forall (st : UserFields * Payload) (h : heap),
  UserPatchEngine.run config st (a ++ b) h =
  match UserPatchEngine.run config st a h with
  | (Ok st', h') => UserPatchEngine.run config st' b h'
  | (Err e, h') => (Err e, h')
  end.
Proof.
  induction a as [|o a IH]; intros st h; simpl; [reflexivity|].
  unfold bindM. destruct (UserPatchEngine.step config st o h) as [[st'|e] h']; [apply IH|reflexivity].
Qed.

(** X7: an operation whose [op] is not add, replace or remove (case-insensitively) anywhere in a batch makes the batch fail, in the group engine and in the user engine. *)
Theorem patch_unsupported_op_fails_batch (ops : list PatchOperation) (o : PatchOperation)
    (Hin : In o ops) (Hop : supported_op (op o) = None) :
  (forall state config, exists e, GroupPatchEngine.apply ops state config = Err e) /\
  (forall state config h, exists e h', UserPatchEngine.apply ops state config h = (Err e, h')).
Proof.
  split.
  - intros state config. unfold GroupPatchEngine.apply.
    generalize {| r_displayName := g_displayName state; r_externalId := g_externalId state;
                  r_payload := g_rawPayload state; r_members := g_members state |}.
    induction ops as [|o' ops IH]; intro st; [contradiction|]. simpl.
    destruct Hin as [<-|Hin].
    + unfold GroupPatchEngine.step at 1. rewrite Hop. simpl. eauto.
    + destruct (GroupPatchEngine.step config st o'); simpl; [exact (IH Hin _)|eauto].
  - intros state config h. unfold UserPatchEngine.apply, bindM.
    enough (forall st h, exists e h', UserPatchEngine.run config st ops h = (Err e, h'))
      as Hr by (destruct (Hr (user_fields_of state, u_rawPayload state) h) as [e [h' Hh]];
                unfold user_fields_of in Hh; rewrite Hh; eauto).
    induction ops as [|o' ops IH]; intros st h0; [contradiction|]. simpl. unfold bindM.
    destruct Hin as [<-|Hin].
    + unfold UserPatchEngine.step at 1. destruct st as [f raw]. rewrite Hop.
      unfold throw. eauto.
    + destruct (UserPatchEngine.step config st o' h0) as [[st'|e] h1]; [exact (IH Hin _ _)|eauto].
Qed.

Lemma obj_has_set {A} (fs : list (string * A)) (key k : string) (v : A) :
  existsb (fun '(k', _) => String.eqb k' k) (obj_set fs key v) =
  existsb (fun '(k', _) => String.eqb k' k) fs || String.eqb key k.
Proof.
  induction fs as [|[k' v'] fs IH]; simpl; [rewrite orb_false_r; reflexivity|].
  destruct (String.eqb k' key) eqn:E; simpl.
  - apply String.eqb_eq in E. subst. destruct (String.eqb key k); simpl;
      [reflexivity|rewrite orb_false_r; reflexivity].
  - rewrite IH, orb_assoc. reflexivity.
Qed.

Lemma group_replace_payload_keys (o : PatchOperation) (dn : string) (ext : option string)
    (ms : list GroupMemberDto) (raw : list (string * json)) (dn' : string)
    (ext' : option string) (ms' : list GroupMemberDto) (raw' : list (string * json))
    (k : string) :
  group_first_class_key k = true -> obj_has raw k = false ->
  GroupPatchEngine.handleReplace o dn ext ms raw = Ok (dn', ext', ms', raw') ->
  obj_has raw' k = false.
Proof.
  intros Hk Hr. unfold GroupPatchEngine.handleReplace. cbv zeta.
  assert (Hmerge : forall E acc, obj_has acc k = false ->
    obj_has (fold_left (fun acc '(key, val) =>
                 if String.eqb key "displayName" || String.eqb key "externalId" ||
                    String.eqb key "members" || String.eqb key "schemas"
                 then acc else obj_set acc key val) E acc) k = false).
  { induction E as [|[key val] E IH]; intros acc Ha; simpl; [exact Ha|].
    apply IH. destruct (_ || _) eqn:Es; [exact Ha|].
    unfold obj_has. rewrite obj_has_set. fold (obj_has acc k). rewrite Ha. simpl.
    destruct (String.eqb key k) eqn:Ek; [|reflexivity].
    apply String.eqb_eq in Ek. subst. unfold group_first_class_key in Hk. congruence. }
  intro H.
  repeat match type of H with
         | Ok _ = Ok _ => injection H as _ _ _ <-
         | Err _ = Ok _ => discriminate H
         | context [bind (Ok _) _] => cbn [bind] in H
         | context [bind (Err _) _] => cbn [bind] in H
         | context [bind ?m _] => destruct m
         | context [match ?x with _ => _ end] => destruct x
         end; try exact Hr; apply Hmerge; exact Hr.
Qed.

(** X8: the group raw payload never gains the first-class keys [displayName], [externalId], [members] or [schemas]: when absent from the input payload, they are absent after any successful batch. *)
Theorem group_payload_never_gains_first_class_keys (ops : list PatchOperation)
    (state : GroupPatchState) (config : GroupMemberPatchConfig) (res : GroupPatchResult)
    (k : string)
    (Hk : In k ["displayName"; "externalId"; "members"; "schemas"])
    (Habs : obj_has (g_rawPayload state) k = false)
    (Hok : GroupPatchEngine.apply ops state config = Ok res) :
  obj_has (r_payload res) k = false.
Proof.
  assert (Hk' : group_first_class_key k = true)
    by (simpl in Hk; repeat destruct Hk as [<-|Hk]; try reflexivity; contradiction).
  unfold GroupPatchEngine.apply in Hok.
  change (obj_has (g_rawPayload state) k) with
    (obj_has (r_payload {| r_displayName := g_displayName state; r_externalId := g_externalId state;
                           r_payload := g_rawPayload state; r_members := g_members state |}) k)
    in Habs.
  revert Habs Hok.
  generalize {| r_displayName := g_displayName state; r_externalId := g_externalId state;
                r_payload := g_rawPayload state; r_members := g_members state |}.
  induction ops as [|o ops IH]; intros st Habs Hok; simpl in Hok.
  - injection Hok as <-. exact Habs.
  - destruct (GroupPatchEngine.step config st o) as [st'|e] eqn:Hs; simpl in Hok; [|discriminate].
    apply (IH st'); [|exact Hok].
    unfold GroupPatchEngine.step in Hs.
    destruct (supported_op_cases (op o)) as [E|[E|[E|E]]]; rewrite E in Hs; simpl in Hs.
    + destruct (GroupPatchEngine.handleAdd _ _ _); simpl in Hs; [|discriminate].
      injection Hs as <-. exact Habs.
    + destruct (GroupPatchEngine.handleReplace _ _ _ _ _) as [[[[dn ext] ms] raw]|e] eqn:Hr;
        [|discriminate].
      injection Hs as <-. exact (group_replace_payload_keys _ _ _ _ _ _ _ _ _ _ Hk' Habs Hr).
    + destruct (GroupPatchEngine.handleRemove _ _ _ _); simpl in Hs; [|discriminate].
      injection Hs as <-. exact Habs.
    + discriminate.
Qed.

Lemma toMemberDto_err (e : json) (err : PatchError) :
  GroupPatchEngine.toMemberDto e = Err err -> err = err400 invalidValue.
Proof.
  unfold GroupPatchEngine.toMemberDto. destruct e; try (intro H; injection H as <-; reflexivity).
  destruct (obj_has _ _); [discriminate|]. intro H. injection H as <-. reflexivity.
Qed.

Lemma toMemberDtos_fails (xs : list json) (e : json) (err : PatchError) :
  In e xs -> GroupPatchEngine.toMemberDto e = Err err ->
  GroupPatchEngine.toMemberDtos xs = Err (err400 invalidValue).
Proof.
  induction xs as [|x xs IH]; simpl; [intros []|]. intros [<-|Hin] He.
  - rewrite He. simpl. rewrite (toMemberDto_err _ _ He). reflexivity.
  - destruct (GroupPatchEngine.toMemberDto x) as [m|err'] eqn:Ex; simpl.
    + rewrite (IH Hin He). reflexivity.
    + rewrite (toMemberDto_err _ _ Ex). reflexivity.
Qed.

(** X9: an [add] on the members in which one supplied entry is not an object with a [value] key fails with [invalidValue]. *)
Theorem group_add_rejects_entry_without_value (o : PatchOperation)
    (ms : list GroupMemberDto) (allowMulti : bool) (e : json) (err : PatchError)
    (Hpath : no_path (lower_path (path o)) || path_is (lower_path (path o)) "members" = true)
    (Hin : In e (match value o with JArr xs => xs | v => [v] end))
    (He : GroupPatchEngine.toMemberDto e = Err err) :
  GroupPatchEngine.handleAdd o ms allowMulti = Err (err400 invalidValue).
Proof.
  unfold GroupPatchEngine.handleAdd. cbv zeta.
  assert (Hp : negb (no_path (lower_path (path o))) &&
               negb (path_is (lower_path (path o)) "members") = false)
    by (destruct (no_path _), (path_is _ _); simpl in *; congruence).
  rewrite Hp. destruct (falsy (value o)); [reflexivity|].
  destruct (negb allowMulti && _); [reflexivity|].
  rewrite (toMemberDtos_fails _ _ _ Hin He). reflexivity.
Qed.

(** X10: a user [remove] without a path fails the batch with [noTarget], leaving the heap as the operations before it left it. *)
Theorem user_remove_without_path_fails (pre post : list PatchOperation) (o : PatchOperation)
    (state : UserPatchState) (config : PatchConfig) (h h1 : heap) (mid : UserFields * Payload)
    (Hop : supported_op (op o) = Some "remove")
    (Hpath : no_path (path o) = true)
    (Hpre : UserPatchEngine.run config (user_fields_of state, u_rawPayload state) pre h =
            (Ok mid, h1)) :
  UserPatchEngine.apply (pre ++ o :: post) state config h = (Err (err400 noTarget), h1).
Proof.
  unfold UserPatchEngine.apply, bindM. unfold user_fields_of in Hpre.
  rewrite user_run_app, Hpre. simpl. unfold bindM.
  destruct mid as [f raw]. unfold UserPatchEngine.step. rewrite Hop. cbn iota beta.
  unfold bindM, UserPatchEngine.applyRemove.
  destruct (path o) as [s|]; simpl in Hpath |- *.
  - apply String.eqb_eq in Hpath. subst s. reflexivity.
  - reflexivity.
Qed.

Lemma ret_pure {A} (a : A) : pureM (ret a).
Proof. intro h. reflexivity. Qed.

Lemma throw_pure {A} (t : ScimType) : pureM (A:=A) (throw t).
Proof. intro h. reflexivity. Qed.

Lemma lift_pure {A} (m : result A) : pureM (lift m).
Proof. intro h. reflexivity. Qed.

Lemma bindM_pure {A B} (m : UM A) (k : A -> UM B) :
  pureM m -> (forall a, pureM (k a)) -> pureM (bindM m k).
Proof.
  intros Hm Hk h. unfold bindM. specialize (Hm h).
  destruct (m h) as [[a|e] h']; simpl in *; subst h'; [apply Hk|reflexivity].
Qed.

Ltac pure_tac :=
  repeat (cbv zeta;
          match goal with
          | |- pureM (bindM _ _) => apply bindM_pure; [|intro]
          | |- pureM (ret _) => apply ret_pure
          | |- pureM (throw _) => apply throw_pure
          | |- pureM (lift _) => apply lift_pure
          | |- pureM (if ?b then _ else _) => destruct b
          | |- pureM (match ?x with _ => _ end) => destruct x
          | |- pureM (fun _ => _) =>
              let h := fresh "h" in intro h; cbv beta;
              repeat match goal with |- context [match ?x with _ => _ end] => destruct x end;
              reflexivity
          end).

Lemma applyAddOrReplace_heap (o : string) (p : option string) (v : json) (f : UserFields)
    (raw : Payload) (config : PatchConfig) (h : heap) :
  verbosePatch config = false ->
  snd (UserPatchEngine.applyAddOrReplace o p v f raw config h) = h.
Proof.
  intro Hv. revert h. change (pureM (UserPatchEngine.applyAddOrReplace o p v f raw config)).
  unfold UserPatchEngine.applyAddOrReplace. rewrite Hv. simpl andb. pure_tac.
Qed.

Lemma applyRemove_heap (p : option string) (act : bool) (raw : Payload)
    (config : PatchConfig) (h : heap) :
  verbosePatch config = false ->
  snd (UserPatchEngine.applyRemove p act raw config h) = h.
Proof.
  intro Hv. revert h. change (pureM (UserPatchEngine.applyRemove p act raw config)).
  unfold UserPatchEngine.applyRemove. rewrite Hv. simpl andb. pure_tac.
Qed.

Lemma step_heap (config : PatchConfig) (st : UserFields * Payload) (o : PatchOperation)
    (h : heap) :
  verbosePatch config = false -> snd (UserPatchEngine.step config st o h) = h.
Proof.
  intro Hv. destruct st as [f raw]. unfold UserPatchEngine.step.
  destruct (supported_op_cases (op o)) as [E|[E|[E|E]]]; rewrite E; cbn iota beta.
  - apply applyAddOrReplace_heap; exact Hv.
  - apply applyAddOrReplace_heap; exact Hv.
  - unfold bindM. pose proof (applyRemove_heap (path o) (f_active f) raw config h Hv) as Hr.
    destruct (UserPatchEngine.applyRemove _ _ _ _ h) as [[r|e] h']; simpl in *; exact Hr.
  - reflexivity.
Qed.

(** X11: with [verbosePatch] off, the user engine never writes the heap: nested objects held by reference are left untouched, whatever the batch does. *)
Theorem user_no_verbose_never_writes_heap (ops : list PatchOperation)
    (state : UserPatchState) (config : PatchConfig) (h : heap)
    (Hv : verbosePatch config = false) :
  snd (UserPatchEngine.apply ops state config h) = h.
Proof.
  unfold UserPatchEngine.apply, bindM.
  enough (Hr : forall st h, snd (UserPatchEngine.run config st ops h) = h).
  { pose proof (Hr (user_fields_of state, u_rawPayload state) h) as H.
    unfold user_fields_of in H.
    destruct (UserPatchEngine.run _ _ ops h) as [[st|e] h']; simpl in *; exact H. }
  induction ops as [|o ops IH]; intros st h0; [reflexivity|]. simpl. unfold bindM.
  pose proof (step_heap config st o h0 Hv) as Hs.
  destruct (UserPatchEngine.step config st o h0) as [[st'|e] h1]; simpl in Hs; subst h1;
    [apply IH|reflexivity].
Qed.

Lemma removeAttribute_props (raw : Payload) (a : string) :
  find_key_ci (UserPatchEngine.removeAttribute raw a) a = None /\
  (forall k s, In (k, s) raw -> toLowerCase k <> toLowerCase a ->
               In (k, s) (UserPatchEngine.removeAttribute raw a)) /\
  (forall k s, In (k, s) (UserPatchEngine.removeAttribute raw a) -> In (k, s) raw).
Proof.
  unfold UserPatchEngine.removeAttribute. split; [|split].
  - induction raw as [|[k s] raw IH]; simpl; [reflexivity|].
    destruct (String.eqb (toLowerCase k) (toLowerCase a)) eqn:E; simpl; [exact IH|].
    rewrite E. exact IH.
  - intros k s Hin Hne. apply filter_In. split; [exact Hin|].
    apply negb_true_iff, String.eqb_neq. exact Hne.
  - intros k s Hin. apply filter_In in Hin as [Hin _]. exact Hin.
Qed.

(** X12: a user [remove] on a plain attribute path (not active, extension, value filter or dotted in verbose mode) removes every key equal to the path case-insensitively, keeps every other entry and adds nothing. *)
Theorem user_remove_simple_path_case_insensitive (a : string) (act : bool) (raw : Payload)
    (config : PatchConfig) (h : heap)
    (Hne : String.eqb a EmptyString = false)
    (Hact : String.eqb (toLowerCase a) "active" = false)
    (Hext : isExtensionPath a = false) (Hvp : isValuePath a = false)
    (Hdot : verbosePatch config && has_char "."%char a = false) :
  exists raw',
    UserPatchEngine.applyRemove (Some a) act raw config h = (Ok (act, raw'), h) /\
    find_key_ci raw' a = None /\
    (forall k s, In (k, s) raw -> toLowerCase k <> toLowerCase a -> In (k, s) raw') /\
    (forall k s, In (k, s) raw' -> In (k, s) raw).
Proof.
  exists (UserPatchEngine.removeAttribute raw a). split; [|exact (removeAttribute_props raw a)].
  unfold UserPatchEngine.applyRemove. simpl. rewrite Hact, Hne, Hext, Hvp, Hdot. reflexivity.
Qed.

Lemma in_obj_set_other {A} (fs : list (string * A)) (key k : string) (x v : A) :
  In (k, x) fs -> k <> key -> In (k, x) (obj_set fs key v).
Proof.
  induction fs as [|[k' v'] fs IH]; simpl; [intros []|]. intros [E|Hin] Hne.
  - injection E as -> ->. destruct (String.eqb k key) eqn:E; [apply String.eqb_eq in E; contradiction|].
    left. reflexivity.
  - destruct (String.eqb k' key); [right; exact Hin|right; exact (IH Hin Hne)].
Qed.

(** X13: a user [add]/[replace] on a plain attribute path writes the value under the path spelled as given (case-sensitively) and keeps every other key, including keys differing from the path only in case. *)
Theorem user_simple_path_write_is_case_sensitive (o a : string) (v : json) (f : UserFields)
    (raw : Payload) (config : PatchConfig) (h : heap)
    (Hne : String.eqb a EmptyString = false)
    (Hfc : existsb (String.eqb (toLowerCase a)) ["active"; "username"; "displayname"; "externalid"]
           = false)
    (Hext : isExtensionPath a = false) (Hvp : isValuePath a = false)
    (Hdot : verbosePatch config && has_char "."%char a = false) :
  exists raw',
    UserPatchEngine.applyAddOrReplace o (Some a) v f raw config h = (Ok (f, raw'), h) /\
    slot_get raw' a = Some (SVal v) /\
    (forall k s, In (k, s) raw -> k <> a -> In (k, s) raw').
Proof.
  exists (obj_set raw a (SVal v)). split; [|split].
  - simpl in Hfc. apply orb_false_iff in Hfc as [H1 Hfc]. apply orb_false_iff in Hfc as [H2 Hfc].
    apply orb_false_iff in Hfc as [H3 Hfc]. apply orb_false_iff in Hfc as [H4 _].
    unfold UserPatchEngine.applyAddOrReplace. simpl. rewrite H1, H2, H3, H4, Hne, Hext, Hvp, Hdot.
    reflexivity.
  - apply slot_get_set.
  - intros k s Hin Hk. exact (in_obj_set_other raw a k s (SVal v) Hin Hk).
Qed.

Lemma assoc_str_in (m : list (string * string)) (k v : string) :
  assoc_str m k = Some v -> In (k, v) m.
Proof.
  induction m as [|[k' v'] m IH]; simpl; [discriminate|].
  destruct (String.eqb k' k) eqn:E.
  - intro H. injection H as <-. apply String.eqb_eq in E. subst. left. reflexivity.
  - intro H. right. exact (IH H).
Qed.

Lemma canonical_map_lower :
  forallb (fun '(lk, c) => String.eqb (toLowerCase c) lk) CANONICAL_KEY_MAP = true.
Proof. vm_compute. reflexivity. Qed.

Lemma canonical_map_injective :
  forallb (fun '(l1, c1) => forallb (fun '(l2, c2) =>
      Bool.eqb (String.eqb c1 c2) (String.eqb l1 l2)) CANONICAL_KEY_MAP) CANONICAL_KEY_MAP = true.
Proof. vm_compute. reflexivity. Qed.

Lemma canon_key_eqb (lk c k : string) :
  assoc_str CANONICAL_KEY_MAP lk = Some c ->
  String.eqb (canon_key k) c = String.eqb (toLowerCase k) lk.
Proof.
  intro Hc. pose proof (assoc_str_in _ _ _ Hc) as Hin. unfold canon_key.
  destruct (assoc_str CANONICAL_KEY_MAP (toLowerCase k)) as [c'|] eqn:Hk.
  - pose proof (assoc_str_in _ _ _ Hk) as Hin'.
    pose proof canonical_map_injective as Hinj.
    rewrite forallb_forall in Hinj. specialize (Hinj _ Hin'). cbv beta iota in Hinj.
    rewrite forallb_forall in Hinj. specialize (Hinj _ Hin). cbv beta iota in Hinj.
    apply Bool.eqb_prop in Hinj. exact Hinj.
  - destruct (String.eqb (toLowerCase k) lk) eqn:E1.
    + apply String.eqb_eq in E1. subst lk. rewrite Hk in Hc. discriminate.
    + destruct (String.eqb k c) eqn:E2; [|reflexivity].
      apply String.eqb_eq in E2. subst k.
      pose proof canonical_map_lower as Hl. rewrite forallb_forall in Hl.
      specialize (Hl _ Hin). cbv beta iota in Hl. rewrite Hl in E1. discriminate.
Qed.

Lemma obj_get_set (fs : list (string * json)) (key c : string) (v : json) :
  obj_get (obj_set fs key v) c = if String.eqb key c then v else obj_get fs c.
Proof.
  induction fs as [|[k' v'] fs IH]; simpl.
  - destruct (String.eqb key c); reflexivity.
  - destruct (String.eqb k' key) eqn:E; simpl.
    + apply String.eqb_eq in E. subst k'. destruct (String.eqb key c); reflexivity.
    + rewrite IH. destruct (String.eqb k' c) eqn:E2; [|reflexivity].
      apply String.eqb_eq in E2. subst c. rewrite String.eqb_sym, E. reflexivity.
Qed.

Lemma keys_obj_set_in {A} (fs : list (string * A)) (key x : string) (v : A) :
  In x (map fst (obj_set fs key v)) -> In x (map fst fs) \/ x = key.
Proof.
  induction fs as [|[k' v'] fs IH]; simpl.
  - intros [E|[]]. right. symmetry. exact E.
  - destruct (String.eqb k' key); simpl.
    + intros [E|H]; [left; left; exact E|left; right; exact H].
    + intros [E|H]; [left; left; exact E|]. destruct (IH H) as [H'|H']; [left; right; exact H'|right; exact H'].
Qed.

Lemma obj_set_nodup {A} (fs : list (string * A)) (key : string) (v : A) :
  NoDup (map fst fs) -> NoDup (map fst (obj_set fs key v)).
Proof.
  induction fs as [|[k' v'] fs IH]; simpl; intro Hnd.
  - constructor; [intros []|constructor].
  - inversion Hnd as [|? ? Hnin Hnd']; subst.
    destruct (String.eqb k' key) eqn:E; simpl; [exact Hnd|].
    constructor; [|exact (IH Hnd')].
    intro Hin. destruct (keys_obj_set_in fs key k' v Hin) as [H|H]; [exact (Hnin H)|].
    subst. rewrite String.eqb_refl in E. discriminate.
Qed.

Lemma normalize_fold_get (E acc : list (string * json)) (c : string) :
  obj_get (fold_left (fun result '(key, v) => obj_set result (canon_key key) v) E acc) c =
  fold_left (fun a '(k, v) => if String.eqb (canon_key k) c then v else a) E (obj_get acc c).
Proof.
  revert acc. induction E as [|[k v] E IH]; intro acc; simpl; [reflexivity|].
  rewrite IH, obj_get_set. reflexivity.
Qed.

Lemma normalize_fold_nodup (E acc : list (string * json)) :
  NoDup (map fst acc) ->
  NoDup (map fst (fold_left (fun result '(key, v) => obj_set result (canon_key key) v) E acc)).
Proof.
  revert acc. induction E as [|[k v] E IH]; intros acc Hnd; simpl; [exact Hnd|].
  apply IH, obj_set_nodup, Hnd.
Qed.

(** X14: [normalizeObjectKeys] yields an object without duplicate keys in which each canonical attribute holds the value of the last input key equal to it case-insensitively. *)
Theorem user_normalizeObjectKeys_last_wins (E : list (string * json)) (lk c : string)
    (Hc : assoc_str CANONICAL_KEY_MAP lk = Some c) :
  NoDup (map fst (UserPatchEngine.normalizeObjectKeys E)) /\
  obj_get (UserPatchEngine.normalizeObjectKeys E) c = last_ci lk E.
Proof.
  assert (Hn : UserPatchEngine.normalizeObjectKeys E =
               fold_left (fun result '(key, v) => obj_set result (canon_key key) v) E []).
  { reflexivity. }
  rewrite Hn. split; [apply normalize_fold_nodup; constructor|].
  rewrite normalize_fold_get. unfold last_ci. simpl obj_get.
  clear Hn. generalize JUndef as acc. induction E as [|[k v] E IH]; intro acc; simpl; [reflexivity|].
  rewrite (canon_key_eqb lk c k Hc). apply IH.
Qed.

(** X15: the Prisma evaluator reads a where clause entry by entry: the clause made of the entries of [f1] followed by those of [f2] is the evaluation of [f1], then of [f2] only when [f1] matches. *)
Theorem prisma_filter_concat (r f1 f2 : list (string * json)) :
  matchesPrismaFilter r (JObj (f1 ++ f2)) =
  match matchesPrismaFilter r (JObj f1) with
  | Some true => matchesPrismaFilter r (JObj f2)
  | res => res
  end.
Proof.
  induction f1 as [|[k c] f1 IH]; [reflexivity|].
  simpl in IH |- *. rewrite IH.
  destruct (String.eqb k "AND"); [|destruct (String.eqb k "OR")].
  - destruct c; try reflexivity.
    match goal with |- match ?e with _ => _ end = _ => destruct e as [[|]|] end; reflexivity.
  - destruct c; try reflexivity.
    match goal with |- match ?e with _ => _ end = _ => destruct e as [[|]|] end; reflexivity.
  - destruct (match_field r k c); reflexivity.
Qed.

Lemma buildColumnFilter_defined (r : list (string * json)) (col : string) (t : ColumnType)
    (cop : CompareOp) (v : json) (w : Where) :
  String.eqb col "AND" = false -> String.eqb col "OR" = false ->
  buildColumnFilter col t cop v = Some w ->
  exists b, matchesPrismaFilter r (JObj w) = Some b.
Proof.
  intros Ha Ho Hb.
  destruct cop; simpl in Hb; try (destruct (is_text t); [|discriminate]);
    injection Hb as <-; rewrite prisma_single_field by assumption; eexists; reflexivity.
Qed.

(** X16: a where clause produced by the planner for the user or group column map never makes the in-memory Prisma evaluator throw, whatever the record. *)
Theorem planner_pushed_where_always_evaluable (cm : ColumnMap)
    (Hcm : cm = USER_DB_COLUMNS \/ cm = GROUP_DB_COLUMNS)
    (ast : FilterNode) (w : Where) (r : list (string * json))
    (Hpush : tryPushToDb ast cm = Some w) :
  exists b, matchesPrismaFilter r (JObj w) = Some b.
Proof.
  revert w Hpush.
  induction ast as [a cop v|lop l IHl rt IHr|i _|a i _]; intros w Hpush;
    simpl in Hpush; try discriminate.
  - unfold pushCompareToDb in Hpush.
    destruct (cm_lookup cm (toLowerCase a)) as [m|] eqn:Em; [|discriminate].
    destruct (column_not_compound cm _ m Hcm Em) as [Ha Ho].
    exact (buildColumnFilter_defined r _ _ _ _ w Ha Ho Hpush).
  - destruct (tryPushToDb l cm) as [wl|]; [|destruct lop; discriminate].
    destruct (tryPushToDb rt cm) as [wr|]; [|destruct lop; discriminate].
    destruct (IHl wl eq_refl) as [bl Hl]. destruct (IHr wr eq_refl) as [br Hr].
    destruct lop; simpl in Hpush; injection Hpush as <-; simpl in Hl, Hr |- *;
      rewrite Hl, Hr; destruct bl, br; eexists; reflexivity.
Qed.

(** X17: for any record, [gt v] and [lte v] on a column (and likewise [lt v] and [gte v]) never both match, and one of them matches exactly when the stored value and [v] are both numbers or both strings. *)
Theorem prisma_strict_and_weak_bounds_complementary (r : list (string * json)) (col : string)
    (v : json) (Ha : String.eqb col "AND" = false) (Ho : String.eqb col "OR" = false) :
  (exists b1 b2,
     matchesPrismaFilter r (JObj [(col, JObj [("gt", v)])]) = Some b1 /\
     matchesPrismaFilter r (JObj [(col, JObj [("lte", v)])]) = Some b2 /\
     b1 && b2 = false /\ b1 || b2 = comparable_pair (obj_get r col) v) /\
  (exists b1 b2,
     matchesPrismaFilter r (JObj [(col, JObj [("lt", v)])]) = Some b1 /\
     matchesPrismaFilter r (JObj [(col, JObj [("gte", v)])]) = Some b2 /\
     b1 && b2 = false /\ b1 || b2 = comparable_pair (obj_get r col) v).
Proof.
  rewrite !prisma_single_field by assumption.
  unfold match_field, matchOperator, op_has, op_get; simpl.
  split; do 2 eexists; (split; [reflexivity|]); (split; [reflexivity|]);
    unfold compareOrdered, comparable_pair;
    destruct (obj_get r col), v; simpl; try (split; reflexivity);
    match goal with
    | |- context [Z.compare ?a ?b] => destruct (Z.compare a b)
    | |- context [String.compare ?a ?b] => destruct (String.compare a b)
    end; split; reflexivity.
Qed.

(** X18: for a literal boolean, number or string, [{ not: v }] on a column is the negation of the equality filter on [v]. *)
Theorem prisma_not_negates_equality (r : list (string * json)) (col : string) (v : json)
    (Ha : String.eqb col "AND" = false) (Ho : String.eqb col "OR" = false)
    (Hv : match v with JBool _ | JNum _ | JStr _ => true | _ => false end = true) :
  matchesPrismaFilter r (JObj [(col, JObj [("not", v)])]) =
  option_map negb (matchesPrismaFilter r (JObj [(col, v)])).
Proof.
  rewrite !prisma_single_field by assumption.
  unfold match_field, matchOperator, op_has, op_get; simpl.
  destruct v; try discriminate; reflexivity.
Qed.

(** X19: a column absent from the record matches neither [null] nor [{ not: null }]. *)
Theorem prisma_missing_column_neither_null_nor_present (r : list (string * json))
    (col : string) (Ha : String.eqb col "AND" = false) (Ho : String.eqb col "OR" = false)
    (Habs : obj_has r col = false) :
  matchesPrismaFilter r (JObj [(col, JNull)]) = Some false /\
  matchesPrismaFilter r (JObj [(col, JObj [("not", JNull)])]) = Some false.
Proof.
  rewrite !prisma_single_field by assumption.
  unfold match_field, matchOperator, op_has, op_get; simpl.
  rewrite (obj_has_false_get r col Habs). split; reflexivity.
Qed.

(** X20: in an operator object holding [not], a [gte], [lt] or [lte] key is ignored and the object is the [not] filter alone, while a [gt] key takes over and [not] is ignored. *)
Theorem prisma_not_shadows_weak_and_lower_bounds (r : list (string * json)) (col : string)
    (a b : json) (k : string) (Hk : In k ["gte"; "lt"; "lte"]) :
  matchesPrismaFilter r (JObj [(col, JObj [("not", a); (k, b)])]) =
  matchesPrismaFilter r (JObj [(col, JObj [("not", a)])]) /\
  matchesPrismaFilter r (JObj [(col, JObj [("not", a); ("gt", b)])]) =
  matchesPrismaFilter r (JObj [(col, JObj [("gt", b)])]).
Proof.
  destruct (String.eqb col "AND") eqn:Ha.
  { apply String.eqb_eq in Ha. subst col. split; reflexivity. }
  destruct (String.eqb col "OR") eqn:Ho.
  { apply String.eqb_eq in Ho. subst col. split; reflexivity. }
  rewrite !prisma_single_field by assumption.
  unfold match_field, matchOperator, op_has, op_get.
  simpl in Hk. destruct Hk as [<-|[<-|[<-|[]]]]; simpl; split; reflexivity.
Qed.

Ltac hyp_tac := first [vm_compute; reflexivity | simpl; lia | simpl; tauto].

Lemma group_ensureUniqueMembers_keeps_unique_lists_witness :
  GroupPatchEngine.ensureUniqueMembers
    [{| m_value := JStr "user-1"; m_display := JStr "Ann"; m_type := JUndef |};
     {| m_value := JStr "user-2"; m_display := JUndef; m_type := JUndef |}] =
  [{| m_value := JStr "user-1"; m_display := JStr "Ann"; m_type := JUndef |};
   {| m_value := JStr "user-2"; m_display := JUndef; m_type := JUndef |}].
Proof. apply group_ensureUniqueMembers_keeps_unique_lists. vm_compute. reflexivity. Defined.

Lemma group_add_single_member_in_place_witness :
  GroupPatchEngine.handleAdd
    {| op := Some "add"; path := Some "members";
       value := JObj [("value", JStr "user-1"); ("display", JStr "Ann B")] |}
    [{| m_value := JStr "user-1"; m_display := JStr "Ann"; m_type := JUndef |};
     {| m_value := JStr "user-2"; m_display := JUndef; m_type := JUndef |}] false =
  Ok [{| m_value := JStr "user-1"; m_display := JStr "Ann B"; m_type := JUndef |};
      {| m_value := JStr "user-2"; m_display := JUndef; m_type := JUndef |}].
Proof.
  refine (eq_trans (group_add_single_member_in_place
    {| op := Some "add"; path := Some "members";
       value := JObj [("value", JStr "user-1"); ("display", JStr "Ann B")] |}
    [{| m_value := JStr "user-1"; m_display := JStr "Ann"; m_type := JUndef |};
     {| m_value := JStr "user-2"; m_display := JUndef; m_type := JUndef |}] false
    [("value", JStr "user-1"); ("display", JStr "Ann B")] _ _ _ _) _);
    vm_compute; reflexivity.
Defined.

Lemma group_remove_batch_only_narrows_members_witness :
  exists res,
    GroupPatchEngine.apply
      [{| op := Some "remove"; path := Some "members";
          value := JArr [JObj [("value", JStr "user-1")]] |}]
      {| g_displayName := "Engineering"; g_externalId := Some "grp-001";
         g_members := [{| m_value := JStr "user-1"; m_display := JUndef; m_type := JUndef |};
                       {| m_value := JStr "user-2"; m_display := JUndef; m_type := JUndef |}];
         g_rawPayload := [("description", JStr "d")] |}
      {| allowMultiMemberAdd := false; allowMultiMemberRemove := false;
         allowRemoveAllMembers := false |} = Ok res /\
    r_displayName res = "Engineering" /\ r_externalId res = Some "grp-001" /\
    r_payload res = [("description", JStr "d")] /\
    exists keep : GroupMemberDto -> bool,
      r_members res =
      filter keep [{| m_value := JStr "user-1"; m_display := JUndef; m_type := JUndef |};
                   {| m_value := JStr "user-2"; m_display := JUndef; m_type := JUndef |}].
Proof.
  eexists. split; [vm_compute; reflexivity|].
  apply (group_remove_batch_only_narrows_members
      [{| op := Some "remove"; path := Some "members";
          value := JArr [JObj [("value", JStr "user-1")]] |}]
      {| g_displayName := "Engineering"; g_externalId := Some "grp-001";
         g_members := [{| m_value := JStr "user-1"; m_display := JUndef; m_type := JUndef |};
                       {| m_value := JStr "user-2"; m_display := JUndef; m_type := JUndef |}];
         g_rawPayload := [("description", JStr "d")] |}
      {| allowMultiMemberAdd := false; allowMultiMemberRemove := false;
         allowRemoveAllMembers := false |}); hyp_tac.
Defined.

Lemma group_targeted_remove_keeps_uppercase_values_witness :
  exists ms',
    GroupPatchEngine.handleRemove
      {| op := Some "remove"; path := Some "members[value eq ABC]"; value := JUndef |}
      [{| m_value := JStr "ABC"; m_display := JUndef; m_type := JUndef |};
       {| m_value := JStr "abc"; m_display := JUndef; m_type := JUndef |}] false false = Ok ms' /\
    toLowerCase "abc" = "abc" /\
    (forall m, In m [{| m_value := JStr "ABC"; m_display := JUndef; m_type := JUndef |};
                     {| m_value := JStr "abc"; m_display := JUndef; m_type := JUndef |}] ->
               (In m ms' <-> m_value m <> JStr "abc")) /\
    (forall m s, In m [{| m_value := JStr "ABC"; m_display := JUndef; m_type := JUndef |};
                       {| m_value := JStr "abc"; m_display := JUndef; m_type := JUndef |}] ->
                 m_value m = JStr s -> toLowerCase s <> s -> In m ms').
Proof.
  apply (group_targeted_remove_keeps_uppercase_values
      {| op := Some "remove"; path := Some "members[value eq ABC]"; value := JUndef |}
      [{| m_value := JStr "ABC"; m_display := JUndef; m_type := JUndef |};
       {| m_value := JStr "abc"; m_display := JUndef; m_type := JUndef |}] false false
      "members[value eq ABC]" "abc"); hyp_tac.
Defined.

Lemma group_remove_all_members_gated_witness :
  GroupPatchEngine.step
    {| allowMultiMemberAdd := true; allowMultiMemberRemove := true; allowRemoveAllMembers := false |}
    {| r_displayName := "Engineering"; r_externalId := None; r_payload := [];
       r_members := [{| m_value := JStr "user-1"; m_display := JUndef; m_type := JUndef |}] |}
    {| op := Some "Remove"; path := Some "Members"; value := JUndef |} =
  Err (err400 invalidValue).
Proof.
  exact (group_remove_all_members_gated
    {| allowMultiMemberAdd := true; allowMultiMemberRemove := true; allowRemoveAllMembers := false |}
    {| r_displayName := "Engineering"; r_externalId := None; r_payload := [];
       r_members := [{| m_value := JStr "user-1"; m_display := JUndef; m_type := JUndef |}] |}
    {| op := Some "Remove"; path := Some "Members"; value := JUndef |} eq_refl eq_refl eq_refl).
Defined.

Lemma group_multi_remove_rejected_witness :
  GroupPatchEngine.apply
    [{| op := Some "remove"; path := Some "members";
        value := JArr [JObj [("value", JStr "user-1")]; JObj [("value", JStr "user-2")]] |}]
    {| g_displayName := "Engineering"; g_externalId := None; g_members := [];
       g_rawPayload := [] |}
    {| allowMultiMemberAdd := true; allowMultiMemberRemove := false;
       allowRemoveAllMembers := true |} = Err (err400 invalidValue).
Proof.
  exact (group_multi_remove_rejected []
    [] {| op := Some "remove"; path := Some "members";
          value := JArr [JObj [("value", JStr "user-1")]; JObj [("value", JStr "user-2")]] |}
    {| g_displayName := "Engineering"; g_externalId := None; g_members := [];
       g_rawPayload := [] |}
    {| allowMultiMemberAdd := true; allowMultiMemberRemove := false;
       allowRemoveAllMembers := true |}
    {| r_displayName := "Engineering"; r_externalId := None; r_payload := [];
       r_members := [] |}
    [JObj [("value", JStr "user-1")]; JObj [("value", JStr "user-2")]]
    eq_refl eq_refl eq_refl (le_n 2) eq_refl).
Defined.

Lemma patch_unsupported_op_fails_batch_witness :
  (forall state config, exists e,
     GroupPatchEngine.apply
       [{| op := Some "move"; path := Some "members"; value := JUndef |}] state config = Err e) /\
  (forall state config h, exists e h',
     UserPatchEngine.apply
       [{| op := Some "move"; path := Some "members"; value := JUndef |}] state config h =
     (Err e, h')).
Proof.
  apply (patch_unsupported_op_fails_batch
    [{| op := Some "move"; path := Some "members"; value := JUndef |}]
    {| op := Some "move"; path := Some "members"; value := JUndef |}); hyp_tac.
Defined.

Lemma group_payload_never_gains_first_class_keys_witness :
  exists res,
    GroupPatchEngine.apply
      [{| op := Some "replace"; path := None;
          value := JObj [("displayName", JStr "Ops"); ("members", JArr []);
                         ("description", JStr "d2")] |}]
      {| g_displayName := "Engineering"; g_externalId := None; g_members := [];
         g_rawPayload := [("description", JStr "d")] |}
      {| allowMultiMemberAdd := true; allowMultiMemberRemove := true;
         allowRemoveAllMembers := true |} = Ok res /\
    obj_has (r_payload res) "members" = false.
Proof.
  eexists. split; [vm_compute; reflexivity|].
  apply (group_payload_never_gains_first_class_keys
      [{| op := Some "replace"; path := None;
          value := JObj [("displayName", JStr "Ops"); ("members", JArr []);
                         ("description", JStr "d2")] |}]
      {| g_displayName := "Engineering"; g_externalId := None; g_members := [];
         g_rawPayload := [("description", JStr "d")] |}
      {| allowMultiMemberAdd := true; allowMultiMemberRemove := true;
         allowRemoveAllMembers := true |}); hyp_tac.
Defined.

Lemma group_add_rejects_entry_without_value_witness :
  GroupPatchEngine.handleAdd
    {| op := Some "add"; path := None;
       value := JArr [JObj [("value", JStr "user-1")]; JObj [("display", JStr "Bob")]] |}
    [] true = Err (err400 invalidValue).
Proof.
  apply (group_add_rejects_entry_without_value
    {| op := Some "add"; path := None;
       value := JArr [JObj [("value", JStr "user-1")]; JObj [("display", JStr "Bob")]] |}
    [] true (JObj [("display", JStr "Bob")]) (err400 invalidValue)); hyp_tac.
Defined.

Lemma user_remove_without_path_fails_witness :
  UserPatchEngine.apply
    [{| op := Some "replace"; path := Some "title"; value := JStr "Dev" |};
     {| op := Some "remove"; path := None; value := JUndef |}]
    {| u_userName := "bjensen"; u_displayName := None; u_externalId := None;
       u_active := true; u_rawPayload := [] |}
    {| verbosePatch := false |} (fun _ => []) =
  (Err (err400 noTarget), fun _ => []).
Proof.
  exact (user_remove_without_path_fails
    [{| op := Some "replace"; path := Some "title"; value := JStr "Dev" |}] []
    {| op := Some "remove"; path := None; value := JUndef |}
    {| u_userName := "bjensen"; u_displayName := None; u_externalId := None;
       u_active := true; u_rawPayload := [] |}
    {| verbosePatch := false |} (fun _ => []) (fun _ => [])
    ({| f_userName := "bjensen"; f_displayName := None; f_externalId := None;
        f_active := true |}, [("title", SVal (JStr "Dev"))])
    eq_refl eq_refl eq_refl).
Defined.

Lemma user_no_verbose_never_writes_heap_witness :
  snd (UserPatchEngine.apply
         [{| op := Some "replace"; path := Some "name.givenName"; value := JStr "Ann" |}]
         {| u_userName := "bjensen"; u_displayName := None; u_externalId := None;
            u_active := true; u_rawPayload := [("name", SRef 0%nat)] |}
         {| verbosePatch := false |} (fun _ => [("givenName", JStr "Barbara")])) =
  (fun _ => [("givenName", JStr "Barbara")]).
Proof.
  apply (user_no_verbose_never_writes_heap
    [{| op := Some "replace"; path := Some "name.givenName"; value := JStr "Ann" |}]
    {| u_userName := "bjensen"; u_displayName := None; u_externalId := None;
       u_active := true; u_rawPayload := [("name", SRef 0%nat)] |}
    {| verbosePatch := false |} (fun _ => [("givenName", JStr "Barbara")])); hyp_tac.
Defined.

Lemma user_remove_simple_path_case_insensitive_witness :
  exists raw',
    UserPatchEngine.applyRemove (Some "NickName") true
      [("nickname", SVal (JStr "bj")); ("title", SVal (JStr "Dev"))]
      {| verbosePatch := true |} (fun _ => []) = (Ok (true, raw'), fun _ => []) /\
    find_key_ci raw' "NickName" = None /\
    (forall k s, In (k, s) [("nickname", SVal (JStr "bj")); ("title", SVal (JStr "Dev"))] ->
                 toLowerCase k <> toLowerCase "NickName" -> In (k, s) raw') /\
    (forall k s, In (k, s) raw' ->
                 In (k, s) [("nickname", SVal (JStr "bj")); ("title", SVal (JStr "Dev"))]).
Proof.
  apply (user_remove_simple_path_case_insensitive "NickName" true
    [("nickname", SVal (JStr "bj")); ("title", SVal (JStr "Dev"))]
    {| verbosePatch := true |} (fun _ => [])); hyp_tac.
Defined.

Lemma user_simple_path_write_is_case_sensitive_witness :
  exists raw',
    UserPatchEngine.applyAddOrReplace "replace" (Some "NICKNAME") (JStr "Babs")
      {| f_userName := "bjensen"; f_displayName := None; f_externalId := None;
         f_active := true |}
      [("nickName", SVal (JStr "bj"))] {| verbosePatch := false |} (fun _ => []) =
    (Ok ({| f_userName := "bjensen"; f_displayName := None; f_externalId := None;
            f_active := true |}, raw'), fun _ => []) /\
    slot_get raw' "NICKNAME" = Some (SVal (JStr "Babs")) /\
    (forall k s, In (k, s) [("nickName", SVal (JStr "bj"))] -> k <> "NICKNAME" ->
                 In (k, s) raw').
Proof.
  apply (user_simple_path_write_is_case_sensitive "replace" "NICKNAME" (JStr "Babs")
    {| f_userName := "bjensen"; f_displayName := None; f_externalId := None;
       f_active := true |}
    [("nickName", SVal (JStr "bj"))] {| verbosePatch := false |} (fun _ => [])); hyp_tac.
Defined.

Lemma user_normalizeObjectKeys_last_wins_witness :
  NoDup (map fst (UserPatchEngine.normalizeObjectKeys
                    [("USERNAME", JStr "a"); ("title", JStr "t"); ("userName", JStr "b")])) /\
  obj_get (UserPatchEngine.normalizeObjectKeys
             [("USERNAME", JStr "a"); ("title", JStr "t"); ("userName", JStr "b")]) "userName" =
  last_ci "username" [("USERNAME", JStr "a"); ("title", JStr "t"); ("userName", JStr "b")].
Proof.
  apply (user_normalizeObjectKeys_last_wins
    [("USERNAME", JStr "a"); ("title", JStr "t"); ("userName", JStr "b")] "username" "userName");
    hyp_tac.
Defined.

Lemma planner_pushed_where_always_evaluable_witness :
  exists b, matchesPrismaFilter [("userName", JNum 3)]
              (JObj [("OR", JArr [JObj [("userName", JStr "bjensen")];
                                  JObj [("active", JObj [("not", JBool true)])]])]) = Some b.
Proof.
  apply (planner_pushed_where_always_evaluable USER_DB_COLUMNS (or_introl eq_refl)
    (Logical LOr (Compare "userName" OpEq (JStr "bjensen")) (Compare "active" OpNe (JBool true)))
    [("OR", JArr [JObj [("userName", JStr "bjensen")];
                  JObj [("active", JObj [("not", JBool true)])]])]
    [("userName", JNum 3)]); hyp_tac.
Defined.

Lemma prisma_strict_and_weak_bounds_complementary_witness :
  (exists b1 b2,
     matchesPrismaFilter [("displayName", JStr "abc")]
       (JObj [("displayName", JObj [("gt", JStr "B")])]) = Some b1 /\
     matchesPrismaFilter [("displayName", JStr "abc")]
       (JObj [("displayName", JObj [("lte", JStr "B")])]) = Some b2 /\
     b1 && b2 = false /\
     b1 || b2 = comparable_pair (obj_get [("displayName", JStr "abc")] "displayName") (JStr "B")) /\
  (exists b1 b2,
     matchesPrismaFilter [("displayName", JStr "abc")]
       (JObj [("displayName", JObj [("lt", JStr "B")])]) = Some b1 /\
     matchesPrismaFilter [("displayName", JStr "abc")]
       (JObj [("displayName", JObj [("gte", JStr "B")])]) = Some b2 /\
     b1 && b2 = false /\
     b1 || b2 = comparable_pair (obj_get [("displayName", JStr "abc")] "displayName") (JStr "B")).
Proof.
  apply (prisma_strict_and_weak_bounds_complementary [("displayName", JStr "abc")]
    "displayName" (JStr "B")); hyp_tac.
Defined.

Lemma prisma_not_negates_equality_witness :
  matchesPrismaFilter [("userName", JStr "BJensen")]
    (JObj [("userName", JObj [("not", JStr "bjensen")])]) =
  option_map negb (matchesPrismaFilter [("userName", JStr "BJensen")]
                     (JObj [("userName", JStr "bjensen")])).
Proof.
  apply (prisma_not_negates_equality [("userName", JStr "BJensen")] "userName"
    (JStr "bjensen")); hyp_tac.
Defined.

Lemma prisma_missing_column_neither_null_nor_present_witness :
  matchesPrismaFilter [("userName", JStr "bjensen")] (JObj [("externalId", JNull)]) =
    Some false /\
  matchesPrismaFilter [("userName", JStr "bjensen")]
    (JObj [("externalId", JObj [("not", JNull)])]) = Some false.
Proof.
  apply (prisma_missing_column_neither_null_nor_present [("userName", JStr "bjensen")]
    "externalId"); hyp_tac.
Defined.

Lemma prisma_not_shadows_weak_and_lower_bounds_witness :
  matchesPrismaFilter [("displayName", JStr "m")]
    (JObj [("displayName", JObj [("not", JStr "x"); ("gte", JStr "z")])]) =
  matchesPrismaFilter [("displayName", JStr "m")]
    (JObj [("displayName", JObj [("not", JStr "x")])]) /\
  matchesPrismaFilter [("displayName", JStr "m")]
    (JObj [("displayName", JObj [("not", JStr "x"); ("gt", JStr "z")])]) =
  matchesPrismaFilter [("displayName", JStr "m")]
    (JObj [("displayName", JObj [("gt", JStr "z")])]).
Proof.
  apply (prisma_not_shadows_weak_and_lower_bounds [("displayName", JStr "m")] "displayName"
    (JStr "x") (JStr "z") "gte"); hyp_tac.
Defined.
